(** * ByteGo: the upload gateway and its path resolver

    A shallow embedding of the TypeScript sources of the Worker
    ([src/index.ts]), of its helpers [generateRandomHex] and [parsePath]
    ([src/utils.ts]) and of the [rename] routine of the design document
    ([docs/bytego-rpd.md], section 4.2), followed by the properties of the
    specification that concern them. *)

From Stdlib Require Import String Ascii.
From Stdlib Require Import List NArith ZArith Bool Lia.
From Stdlib Require DecimalString HexadecimalString DecimalPos.
Import ListNotations.

#[local] Abbreviation length := Datatypes.length.

Set Implicit Arguments.

(* ================================================================== *)
(** * JavaScript strings *)
(* ================================================================== *)

(** A JavaScript string is a sequence of UTF-16 code units.  A code unit is
    kept as its number (an [N] below 65536); string literals of the source
    are written [str "..."]. *)
Module JS.

Definition codeUnit := N.
Definition jsString := list codeUnit.

Definition ch (a : ascii) : codeUnit := N_of_ascii a.
Definition str (s : String.string) : jsString :=
  map N_of_ascii (String.list_ascii_of_string s).

Arguments ch a%_char.
Arguments str s%_string.

Definition eqbS (a b : jsString) : bool :=
  if list_eq_dec N.eq_dec a b then true else false.

(** [s.startsWith(p)]. *)
Fixpoint startsWith (p s : jsString) : bool :=
  match p, s with
  | [], _ => true
  | _ :: _, [] => false
  | x :: p', y :: s' => (x =? y)%N && startsWith p' s'
  end.

(** Truthiness of a string: the empty string is falsy. *)
Definition truthy (s : jsString) : bool :=
  match s with [] => false | _ :: _ => true end.

(** [a || b] on a possibly undefined string. *)
Definition orElse (a : option jsString) (b : jsString) : jsString :=
  match a with
  | Some s => if truthy s then s else b
  | None => b
  end.

(** [s.lastIndexOf(c)] for a one-character search string: the index of the
    last occurrence, or [-1]. *)
Fixpoint lastIndexOfFrom (c : codeUnit) (s : jsString) (i best : Z) : Z :=
  match s with
  | [] => best
  | x :: s' => lastIndexOfFrom c s' (i + 1)%Z (if (x =? c)%N then i else best)
  end.

Definition lastIndexOf (c : codeUnit) (s : jsString) : Z :=
  lastIndexOfFrom c s 0%Z (-1)%Z.

(** [s.substring(a, b)]: both indices are clamped to [0, s.length] and
    swapped when [a > b]. *)
Definition clampIndex (len : nat) (z : Z) : nat :=
  Z.to_nat (Z.max 0 (Z.min z (Z.of_nat len))).

Definition substring2 (s : jsString) (a b : Z) : jsString :=
  let a' := clampIndex (length s) a in
  let b' := clampIndex (length s) b in
  firstn (Nat.max a' b' - Nat.min a' b') (skipn (Nat.min a' b') s).

(** [s.substring(a)]. *)
Definition substring1 (s : jsString) (a : Z) : jsString :=
  substring2 s a (Z.of_nat (length s)).

(** [s.slice(0, n)] for [n >= 0]. *)
Definition slice0 (s : jsString) (n : nat) : jsString := firstn n s.

(** [s.split(sep)] for a one-character separator: never the empty array. *)
Fixpoint split (sep : codeUnit) (s : jsString) : list jsString :=
  match s with
  | [] => [[]]
  | c :: s' =>
      if (c =? sep)%N then [] :: split sep s'
      else match split sep s' with
           | [] => [[c]]
           | seg :: segs => (c :: seg) :: segs
           end
  end.

(** [a.pop()]: the last element, [undefined] on the empty array. *)
Fixpoint pop (A : Type) (l : list A) : option A :=
  match l with
  | [] => None
  | [x] => Some x
  | _ :: l' => pop l'
  end.

(** [s.padStart(n, fill)]. *)
Fixpoint repeatTo (fill cur : jsString) (n : nat) : jsString :=
  match n with
  | O => []
  | S k =>
      match cur with
      | c :: cur' => c :: repeatTo fill cur' k
      | [] => match fill with
              | c :: fill' => c :: repeatTo fill fill' k
              | [] => []
              end
      end
  end.

Definition padStart (n : nat) (fill s : jsString) : jsString :=
  if (n <=? length s)%nat then s
  else repeatTo fill fill (n - length s) ++ s.

(** White space and line terminators, as [trim] sees them. *)
Definition isWhiteSpace (c : codeUnit) : bool :=
  existsb (N.eqb c)
    [9; 10; 11; 12; 13; 32; 160; 5760; 8192; 8193; 8194; 8195; 8196; 8197;
     8198; 8199; 8200; 8201; 8202; 8232; 8233; 8239; 8287; 12288; 65279]%N.

Fixpoint dropWhile (f : codeUnit -> bool) (s : jsString) : jsString :=
  match s with
  | [] => []
  | c :: s' => if f c then dropWhile f s' else s
  end.

Definition trimStart (s : jsString) : jsString := dropWhile isWhiteSpace s.
Definition trimEnd (s : jsString) : jsString := rev (dropWhile isWhiteSpace (rev s)).
(** [s.trim()]. *)
Definition trim (s : jsString) : jsString := trimEnd (trimStart s).

(** Integer-valued numbers print in decimal ([n.toString()]); exact for
    the integers below 2^53 that the clock fields are. *)
Definition toString (z : Z) : jsString :=
  str (DecimalString.NilEmpty.string_of_int (Z.to_int z)).

(** [n.toString(16)] for a non-negative integer: lowercase digits. *)
Definition toString16 (n : N) : jsString :=
  str (HexadecimalString.NilEmpty.string_of_uint (N.to_hex_uint n)).

(** ** Replacement with a global regular expression

    Every pattern of the source is a literal, non-empty text, so a match
    is an occurrence of that text.  With the [g] flag the matches are the
    leftmost, non-overlapping occurrences, found from left to right on
    the subject string; the search resumes after the end of a match. *)

(** The subject cut into what is copied and what is replaced.  A match
    remembers the parts of the subject before and after it, which the
    replacement text may refer to. *)
Inductive piece :=
| Lit (c : codeUnit)
| Hit (before after : jsString).

(** [skip] counts the code units of the current match still to be
    passed over; [before] is the part of the subject already read. *)
Fixpoint scan (pat : jsString) (skip : nat) (before s : jsString) : list piece :=
  match s with
  | [] => []
  | c :: rest =>
      match skip with
      | S k => scan pat k (before ++ [c]) rest
      | O =>
          if startsWith pat s
          then Hit before (skipn (length pat) s)
                 :: scan pat (length pat - 1) (before ++ [c]) rest
          else Lit c :: scan pat 0 (before ++ [c]) rest
      end
  end.

Definition matchAll (pat s : jsString) : list piece := scan pat 0 [] s.

(** The replacement text of one match (GetSubstitution of ECMA-262) for a
    pattern without capture groups: [$$] is a dollar sign, [$&] the match,
    [$`] the part of the subject before it and [$'] the part after it;
    any other [$] stands for itself. *)
Fixpoint getSubstitution (matched before after replacement : jsString) : jsString :=
  match replacement with
  | [] => []
  | c :: r =>
      if (c =? ch "$")%N then
        match r with
        | [] => [c]
        | d :: r' =>
            if (d =? ch "$")%N then ch "$" :: getSubstitution matched before after r'
            else if (d =? ch "&")%N then matched ++ getSubstitution matched before after r'
            else if (d =? ch "`")%N then before ++ getSubstitution matched before after r'
            else if (d =? ch "'")%N then after ++ getSubstitution matched before after r'
            else c :: getSubstitution matched before after r
        end
      else c :: getSubstitution matched before after r
  end.

(** [s.replace(/pat/g, replacement)] with a replacement string. *)
Definition expand (pat replacement : jsString) (p : piece) : jsString :=
  match p with
  | Lit c => [c]
  | Hit before after => getSubstitution pat before after replacement
  end.

Definition replaceAll (pat replacement s : jsString) : jsString :=
  flat_map (expand pat replacement) (matchAll pat s).

(** [s.replace(/[^a-zA-Z0-9._-]/g, "_")]: a match is a single code unit
    outside the class and the replacement holds no [$]. *)
Definition isSafeChar (c : codeUnit) : bool :=
  ((ch "a" <=? c) && (c <=? ch "z")
   || (ch "A" <=? c) && (c <=? ch "Z")
   || (ch "0" <=? c) && (c <=? ch "9")
   || (c =? ch ".") || (c =? ch "_") || (c =? ch "-"))%N.

Definition replaceUnsafe (s : jsString) : jsString :=
  map (fun c => if isSafeChar c then c else ch "_") s.

(** [s.replace(/^\/+/, "")]. *)
Definition stripLeadingSlashes (s : jsString) : jsString :=
  dropWhile (fun c => (c =? ch "/")%N) s.

(** [s.replace(/\/$/, "")]. *)
Definition stripTrailingSlash (s : jsString) : jsString :=
  match rev s with
  | c :: r => if (c =? ch "/")%N then rev r else s
  | [] => s
  end.

End JS.

Import JS.

(* ================================================================== *)
(** * The platform: exceptions, the random source, the clock *)
(* ================================================================== *)

Module Platform.

(** Exceptions that the modelled calls can raise. *)
Inductive exn :=
| RangeError           (* new Uint8Array of a length the platform does not create *)
| QuotaExceededError   (* crypto.getRandomValues on more than 65536 bytes *)
| BodyError            (* the request body cannot be parsed *)
| StoreError.          (* the bucket refuses or fails a put *)

Inductive completion (A : Type) :=
| Normal (a : A)
| Throw (e : exn).
Arguments Throw {A} e.

(** The platform as the modelled calls see it.  The random source: the
    sequence of values it delivers and how many of them have been read.
    The typed arrays: the greatest length of a [Uint8Array] that the
    platform creates, which differs from one engine to the other and is
    never under the 65536 bytes that [crypto.getRandomValues] accepts. *)
Record Entropy := mkEntropy {
  source : nat -> N;
  position : nat;
  arrayLimit : N;
  arrayLimit_quota : (65536 <=? arrayLimit)%N = true
}.

Definition Eff (A : Type) := Entropy -> completion (A * Entropy).

Definition ret (A : Type) (a : A) : Eff A := fun e => Normal (a, e).

Definition bind (A B : Type) (m : Eff A) (k : A -> Eff B) : Eff B :=
  fun e =>
    match m e with
    | Normal (a, e') => k a e'
    | Throw x => Throw x
    end.

(** Advance the source past [n] values. *)
Definition advance (n : nat) (e : Entropy) : Entropy :=
  mkEntropy (source e) (position e + n) (arrayLimit e) (arrayLimit_quota e).

(** The next [n] bytes of the source. *)
Definition window (n : nat) (e : Entropy) : list N :=
  map (fun i => (source e (position e + i) mod 256)%N) (seq 0 n).

(** [new Uint8Array(len)] for a non-negative integer [len]: an array of
    [len] zero bytes, or a RangeError when the platform does not create
    an array of that length. *)
Definition newUint8Array (len : N) : Eff (list N) :=
  fun e =>
    if (arrayLimit e <? len)%N then Throw RangeError
    else Normal (repeat 0%N (N.to_nat len), e).

(** [crypto.getRandomValues(array)]: every element is overwritten with a
    random byte; an array of more than 65536 bytes is refused with a
    QuotaExceededError. *)
Definition getRandomValues (array : list N) : Eff (list N) :=
  fun e =>
    if (65536 <? N.of_nat (length array))%N then Throw QuotaExceededError
    else Normal (window (length array) e, advance (length array) e).

(** Two lowercase hexadecimal digits of a byte. *)
Definition hexByte (b : N) : jsString := padStart 2 (str "0") (toString16 b).

(** [crypto.randomUUID()]: a version 4 UUID of RFC 4122 from 16 random
    bytes, printed as 8-4-4-4-12 lowercase hexadecimal digits. *)
Definition uuidOfBytes (bs : list N) : jsString :=
  let b i := nth i bs 0%N in
  let h i := hexByte (b i) in
  let b6 := N.lor (N.land (b 6%nat) 15) 64 in
  let b8 := N.lor (N.land (b 8%nat) 63) 128 in
  h 0%nat ++ h 1%nat ++ h 2%nat ++ h 3%nat ++ str "-"
    ++ h 4%nat ++ h 5%nat ++ str "-"
    ++ hexByte b6 ++ h 7%nat ++ str "-"
    ++ hexByte b8 ++ h 9%nat ++ str "-"
    ++ h 10%nat ++ h 11%nat ++ h 12%nat ++ h 13%nat ++ h 14%nat ++ h 15%nat.

Definition randomUUID : Eff jsString :=
  fun e => Normal (uuidOfBytes (window 16 e), advance 16 e).

(** A reading of the clock ([new Date()]) through the accessors the
    source calls; [getMonth] counts from 0 and [getTime] is in
    milliseconds. *)
Record Date := mkDate {
  getFullYear : Z;
  getMonth : Z;
  getDate : Z;
  getHours : Z;
  getMinutes : Z;
  getSeconds : Z;
  getTime : Z
}.

End Platform.

Import Platform.

Declare Scope eff_scope.
Delimit Scope eff_scope with eff.
Notation "x <- m ;; k" := (bind m (fun x => k))
  (at level 61, m at next level, right associativity) : eff_scope.

(* ================================================================== *)
(** * src/utils.ts *)
(* ================================================================== *)

Module Utils.

Local Open Scope eff_scope.

(** [Math.ceil(length / 2)] on a non-negative integer. *)
Definition ceilHalf (n : N) : N := ((n + 1) / 2)%N.

(** [generateRandomHex(length)] for a non-negative integer [length]. *)
Definition generateRandomHex (len : N) : Eff jsString :=
  array <- newUint8Array (ceilHalf len) ;;
  array <- getRandomValues array ;;
  ret (slice0 (concat (map hexByte array)) (N.to_nat len)).

Section ParsePath.

(** [Number.prototype.toString] where the number is not an exact
    integer of the model: [now.getTime() * 1000000] exceeds 2^53 and is
    rounded to a double before it is printed.  The printing of that
    double is the platform's and is taken as given; the argument is the
    exact product. *)
Variable printDouble : Z -> jsString.

Variable now : Date.

Definition year : jsString := toString (getFullYear now).
Definition month : jsString := padStart 2 (str "0") (toString (getMonth now + 1)).
Definition day : jsString := padStart 2 (str "0") (toString (getDate now)).
Definition hours : jsString := padStart 2 (str "0") (toString (getHours now)).
Definition minutes : jsString := padStart 2 (str "0") (toString (getMinutes now)).
Definition seconds : jsString := padStart 2 (str "0") (toString (getSeconds now)).

Definition dateStr : jsString := year ++ month ++ day.
Definition timeStr : jsString := year ++ month ++ day ++ hours ++ minutes ++ seconds.
Definition timestamp : jsString := toString (getTime now / 1000).
Definition timestampNano : jsString := printDouble (getTime now * 1000000).

Variable filename : jsString.

Definition extIndex : Z := lastIndexOf (ch ".") filename.
Definition ext : jsString :=
  if (extIndex =? -1)%Z then [] else substring1 filename extIndex.

(** [filename.split("/").pop()?.split("\").pop() || filename], then the
    replacement of every code unit outside [a-zA-Z0-9._-]. *)
Definition lastSegment : option jsString :=
  match pop (split (ch "/") filename) with
  | Some s => pop (split (ch "\") s)
  | None => None
  end.

Definition safeFilename : jsString := replaceUnsafe (orElse lastSegment filename).

Definition originName : jsString := safeFilename.
Definition originNameWithoutExt : jsString :=
  if (extIndex =? -1)%Z then safeFilename
  else substring2 safeFilename 0 (lastIndexOf (ch ".") safeFilename).

(** The time and file name variables, replaced in the order of the
    source. *)
Definition replaceNamed (format : jsString) : jsString :=
  let path := format in
  let path := replaceAll (str "{year}") year path in
  let path := replaceAll (str "{month}") month path in
  let path := replaceAll (str "{day}") day path in
  let path := replaceAll (str "{date}") dateStr path in
  let path := replaceAll (str "{time}") timeStr path in
  let path := replaceAll (str "{timestamp}") timestamp path in
  let path := replaceAll (str "{timestamp_nano}") timestampNano path in
  let path := replaceAll (str "{originname}") originName path in
  let path := replaceAll (str "{originname_without_ext}") originNameWithoutExt path in
  let path := replaceAll (str "{ext}") ext path in
  path.

End ParsePath.

(** [s.replace(/pat/g, () => f())]: the callback is called once per
    match, from left to right, and its result is inserted as it is. *)
Fixpoint fill (f : Eff jsString) (ps : list piece) : Eff jsString :=
  match ps with
  | [] => ret []
  | Lit c :: ps' => r <- fill f ps' ;; ret (c :: r)
  | Hit _ _ :: ps' => v <- f ;; r <- fill f ps' ;; ret (v ++ r)
  end.

Definition replaceAllWith (pat : jsString) (f : Eff jsString) (s : jsString) : Eff jsString :=
  fill f (matchAll pat s).

(** The random variables, replaced last. *)
Definition replaceRandom (path : jsString) : Eff jsString :=
  path <- replaceAllWith (str "{randomkey8}") (generateRandomHex 8) path ;;
  path <- replaceAllWith (str "{randomkey16}") (generateRandomHex 16) path ;;
  path <- replaceAllWith (str "{uuid}") randomUUID path ;;
  ret path.

(** [parsePath(filename, format)], with the clock reading [now] of its
    first line made a parameter. *)
Definition parsePath (printDouble : Z -> jsString) (now : Date)
    (filename format : jsString) : Eff jsString :=
  replaceRandom (replaceNamed printDouble now filename format).

End Utils.

Import Utils.

(* ================================================================== *)
(** * src/index.ts: the upload endpoint *)
(* ================================================================== *)

Module Worker.

(** A [File] of the multipart body; [stream] names its bytes, which the
    handler passes on without reading them. *)
Record File := mkFile {
  name : jsString;
  size : N;
  type : jsString;
  stream : nat
}.

(** A field of the parsed body is a string or a file. *)
Inductive formValue :=
| FormString (s : jsString)
| FormFile (f : File).

(** [body["file"]] and [body["customPath"]]; [None] is [undefined]. *)
Record Body := mkBody {
  file : option formValue;
  customPath : option formValue
}.

Record Request := mkRequest {
  Authorization : option jsString;       (* c.req.header("Authorization") *)
  CF_Connecting_IP : option jsString;    (* c.req.header("CF-Connecting-IP") *)
  parseBody : completion Body            (* await c.req.parseBody() *)
}.

(** One call of [BUCKET.put(key, stream, options)]. *)
Record PutCall := mkPut {
  key : jsString;
  body : nat;
  contentType : jsString;
  originalName : jsString;
  uploadedAt : Date;
  uploaderIp : jsString
}.

(** The bindings read by the handler.  [BUCKET] tells whether the store
    completes a put; when it does not, the call throws. *)
Record Bindings := mkBindings {
  BUCKET : PutCall -> bool;
  AUTH_KEY : option jsString;
  PUBLIC_DOMAIN : option jsString;
  UPLOAD_PATH_FORMAT : option jsString
}.

(** The JSON answer with its status. *)
Record Response := mkResponse {
  status : N;
  msg : jsString;
  url : option jsString;
  error : option exn
}.

Definition json (st : N) (m : jsString) : Response := mkResponse st m None None.

(** What a request can change: the random source and the calls made to
    the bucket, the latest first. *)
Record World := mkWorld {
  entropy : Entropy;
  puts : list PutCall
}.

Definition maxFileSize : N := 100 * 1024 * 1024.

Definition defaultFormat : jsString := str "{year}/{month}/{day}/{randomkey16}{ext}".

(** The [catch] clause. *)
Definition uploadFailed (x : exn) : Response :=
  mkResponse 500 (str "Upload failed") None (Some x).

Section Handler.

Variable printDouble : Z -> jsString.
Variable env : Bindings.
(** The two readings of the clock: in [parsePath] and for the
    [uploadedAt] metadata. *)
Variable now stamp : Date.

(** Lines 68-78: the path before the last check. *)
Definition choosePath (f : File) (custom : option formValue) : Eff jsString :=
  match custom with
  | Some (FormString cp) =>
      if negb (eqbS (trim cp) [])
      then ret (stripLeadingSlashes (trim cp))
      else parsePath printDouble now (name f)
             (orElse (UPLOAD_PATH_FORMAT env) defaultFormat)
  | _ =>
      parsePath printDouble now (name f)
        (orElse (UPLOAD_PATH_FORMAT env) defaultFormat)
  end.

(** Lines 80-83. *)
Definition dropOneSlash (path : jsString) : jsString :=
  if startsWith (str "/") path then substring1 path 1 else path.

Definition putCall (req : Request) (f : File) (path : jsString) : PutCall :=
  mkPut path (stream f)
    (orElse (Some (type f)) (str "application/octet-stream"))
    (name f) stamp
    (orElse (CF_Connecting_IP req) (str "unknown")).

Definition publicUrl (path : jsString) : jsString :=
  stripTrailingSlash (orElse (PUBLIC_DOMAIN env) []) ++ str "/" ++ path.

(** The body of the [try] block, from the file check on. *)
Definition store (req : Request) (b : Body) (w : World) : Response * World :=
  match file b with
  | Some (FormFile f) =>
      if (maxFileSize <? size f)%N
      then (json 413 (str "File too large. Max size is 100MB"), w)
      else
        match choosePath f (customPath b) (entropy w) with
        | Throw x => (uploadFailed x, w)
        | Normal (path, e') =>
            let path := dropOneSlash path in
            let call := putCall req f path in
            let w' := mkWorld e' (call :: puts w) in
            if BUCKET env call
            then (mkResponse 200 (str "success") (Some (publicUrl path)) None, w')
            else (uploadFailed StoreError, w')
        end
  | _ => (json 400 (str "No file uploaded"), w)
  end.

(** [app.post("/upload", ...)]. *)
Definition upload (req : Request) (w : World) : Response * World :=
  match AUTH_KEY env with
  | Some k =>
      if truthy k then
        match Authorization req with
        | Some a =>
            if eqbS a k then
              match parseBody req with
              | Normal b => store req b w
              | Throw x => (uploadFailed x, w)
              end
            else (json 401 (str "Unauthorized: Invalid AUTH_KEY"), w)
        | None => (json 401 (str "Unauthorized: Invalid AUTH_KEY"), w)
        end
      else (json 500 (str "Server configuration error: AUTH_KEY not set"), w)
  | None => (json 500 (str "Server configuration error: AUTH_KEY not set"), w)
  end.

End Handler.

(** A request as it arrives, with the two clock readings its handling
    will make. *)
Record Arrival := mkArrival {
  now : Date;
  stamp : Date;
  request : Request
}.

(** The Worker answering requests one after the other.  Nothing but the
    random source and the bucket is carried from one request to the
    next: the module keeps no variable of its own. *)
Fixpoint serve (printDouble : Z -> jsString) (env : Bindings)
    (arrivals : list Arrival) (w : World) : list Response * World :=
  match arrivals with
  | [] => ([], w)
  | a :: rest =>
      let (answer, w1) := upload printDouble env (now a) (stamp a) (request a) w in
      let (answers, w2) := serve printDouble env rest w1 in
      (answer :: answers, w2)
  end.

End Worker.

(* ================================================================== *)
(** * docs/bytego-rpd.md, 4.2: the renaming routine *)
(* ================================================================== *)

(** The routine is given in Python notation; a string is again the
    sequence of its characters. *)
Module Rename.

Record file := mkFile {
  content : list N;
  stem : jsString;
  ext : jsString
}.

(** [s[:k]]: a negative bound counts from the end. *)
Definition sliceTo (s : jsString) (k : Z) : jsString :=
  if (k <? 0)%Z then firstn (Z.to_nat (Z.of_nat (length s) + k)) s
  else firstn (Z.to_nat k) s.

Section Rename.

(** The hexadecimal MD5 digest, and the date path in scope. *)
Variable md5 : list N -> jsString.
Variable date : jsString.

Definition hash (f : file) : jsString := sliceTo (md5 (content f)) 8.

Definition max_stem (f : file) : Z := (40 - Z.of_nat (length (ext f)) - 9)%Z.

(** The file name: what follows [date/] in the result. *)
Definition renamed (f : file) : jsString :=
  sliceTo (stem f) (max_stem f) ++ str "-" ++ hash f ++ ext f.

Definition rename (f : file) : jsString := date ++ str "/" ++ renamed f.

End Rename.

End Rename.

(* ================================================================== *)
(** * Vocabulary of the properties *)
(* ================================================================== *)

Module Props.

(** A lowercase hexadecimal digit, [0-9a-f]. *)
Definition isLowerHexDigit (c : codeUnit) : bool :=
  ((ch "0" <=? c) && (c <=? ch "9") || (ch "a" <=? c) && (c <=? ch "f"))%N.

(** A path separator, forward or back slash. *)
Definition isSeparator (c : codeUnit) : bool :=
  ((c =? ch "/") || (c =? ch "\"))%N.

(** [pat] occurs in [s]. *)
Fixpoint occurs (pat s : jsString) : bool :=
  startsWith pat s
  || match s with
     | [] => false
     | _ :: s' => occurs pat s'
     end.

(** What follows the last code unit of [s] that satisfies [f]; all of
    [s] when there is none. *)
Fixpoint afterLast (f : codeUnit -> bool) (s : jsString) : jsString :=
  match s with
  | [] => []
  | c :: s' =>
      if existsb f s' then afterLast f s'
      else if f c then s' else s
  end.

(** The final segment of a file name split on both kinds of slash. *)
Definition finalSegment (s : jsString) : jsString := afterLast isSeparator s.

Definition timePlaceholders : list jsString :=
  [str "{year}"; str "{month}"; str "{day}"; str "{date}"; str "{time}";
   str "{timestamp}"; str "{timestamp_nano}"].

Definition randomPlaceholders : list jsString :=
  [str "{randomkey8}"; str "{randomkey16}"; str "{uuid}"].

(** None of the placeholders [ps] occurs in [s]. *)
Definition free (ps : list jsString) (s : jsString) : bool :=
  forallb (fun p => negb (occurs p s)) ps.

(** The storage key of a completed evaluation. *)
Definition keyOf (r : completion (jsString * Entropy)) : option jsString :=
  match r with
  | Normal (k, _) => Some k
  | Throw _ => None
  end.

(** The number of places of [s] where [pat] occurs. *)
Fixpoint countOcc (pat s : jsString) : nat :=
  (if startsWith pat s then 1 else 0)
  + match s with
    | [] => 0
    | _ :: s' => countOcc pat s'
    end.

(** A template variable: a name between braces, itself without braces. *)
Definition placeholder (name : jsString) : jsString :=
  ch "{" :: name ++ [ch "}"].

Definition isBrace (c : codeUnit) : bool :=
  ((c =? ch "{") || (c =? ch "}"))%N.

Definition plain (name : jsString) : Prop :=
  Forall (fun c => isBrace c = false) name.

Definition notOpening (c : codeUnit) : Prop := (c =? ch "{")%N = false.

(** Every opening brace of [s] opens one of the variables [names]. *)
Inductive opensOnly (names : list jsString) : jsString -> Prop :=
| opens_nil : opensOnly names []
| opens_char (c : codeUnit) (t : jsString) :
    notOpening c -> opensOnly names t -> opensOnly names (c :: t)
| opens_var (a : jsString) (t : jsString) :
    In a names -> opensOnly names t -> opensOnly names (placeholder a ++ t).

(** The variables that stand for the file name. *)
Definition fileVariables : list jsString :=
  [str "originname"; str "originname_without_ext"; str "ext"].

(** A text that can be inserted without opening a variable and without
    a reference to the match: no opening brace, no dollar sign. *)
Definition inert (r : jsString) : Prop :=
  Forall (fun c => notOpening c /\ (c =? ch "$")%N = false) r.

(** The number of matches among the pieces of a subject. *)
Fixpoint hits (ps : list piece) : nat :=
  match ps with
  | [] => 0
  | Lit _ :: ps' => hits ps'
  | Hit _ _ :: ps' => S (hits ps')
  end.

(** The subject rebuilt with a value in the place of each match: match
    number [i], found between [before] and [after], gives way to
    [v i before after]; the first match has the number [j]. *)
Fixpoint weave (ps : list piece) (v : nat -> jsString -> jsString -> jsString)
    (j : nat) : jsString :=
  match ps with
  | [] => []
  | Lit c :: ps' => c :: weave ps' v j
  | Hit before after :: ps' => v j before after ++ weave ps' v (S j)
  end.

(** The variables of a template that stand for the clock and the file
    name. *)
Definition namedVariables : list jsString :=
  [str "year"; str "month"; str "day"; str "date"; str "time";
   str "timestamp"; str "timestamp_nano"; str "originname";
   str "originname_without_ext"; str "ext"].

(** The bytes of draw number [i] when every draw takes [n] bytes: the
    values of the source at the places [n * i] to [n * i + n - 1] after
    its position. *)
Definition draw (n i : nat) (e : Entropy) : list N :=
  window n (advance (n * i) e).

(** Bytes printed as pairs of hexadecimal digits, and read back. *)
Definition hexOf (bs : list N) : jsString := concat (map hexByte bs).

Definition hexDigitValue (c : codeUnit) : N :=
  (if c <=? ch "9" then c - ch "0" else c - ch "a" + 10)%N.

Definition byteOfHex (s : jsString) : N :=
  match s with
  | [h; l] => (16 * hexDigitValue h + hexDigitValue l)%N
  | _ => 0%N
  end.

Definition hexByteOk (b : N) : bool :=
  (length (hexByte b) =? 2)%nat && forallb isLowerHexDigit (hexByte b)
  && (byteOfHex (hexByte b) =? b)%N.

(** The request passes the two checks on the credential: the server has
    a secret and the [Authorization] header is that secret. *)
Definition admitted (env : Worker.Bindings) (req : Worker.Request) : Prop :=
  exists k, Worker.AUTH_KEY env = Some k /\ truthy k = true
            /\ Worker.Authorization req = Some k.

(** The parsed body carries the file [f] and the field [customPath]. *)
Definition carries (req : Worker.Request) (f : Worker.File)
    (custom : option Worker.formValue) : Prop :=
  Worker.parseBody req = Normal (Worker.mkBody (Some (Worker.FormFile f)) custom).

(** What one answer says about the credential presented, [k] being the
    secret. *)
Definition judged (k : jsString) (a : Worker.Arrival) (r : Worker.Response) : Prop :=
  Worker.status r <> 403%N
  /\ (Worker.Authorization (Worker.request a) = Some k -> Worker.status r <> 401%N)
  /\ (Worker.Authorization (Worker.request a) <> Some k ->
      r = Worker.json 401 (str "Unauthorized: Invalid AUTH_KEY")).

End Props.

Import Props.

(* ================================================================== *)
(** * Sample data *)
(* ================================================================== *)

Module Sample.

Import Worker.

(** 25 December 2024, 09:05:07. *)
Definition christmas : Date := mkDate 2024 11 25 9 5 7 1735117507123.

Definition photo : File := mkFile (str "photo.png") 2048 (str "image/png") 0.

(** A file of 100 MB and one byte. *)
Definition film : File :=
  mkFile (str "film.mkv") (100 * 1024 * 1024 + 1) (str "video/x-matroska") 1.

(** MD5 on the sample files of the renaming routine, which are all empty:
    the digest of the empty content. *)
Definition md5 (content : list N) : jsString :=
  str "d41d8cd98f00b204e9800998ecf8427e".

(** [backup.2024-12-25T09-05-07-snapshot-full]: an extension of 34
    characters. *)
Definition snapshot : Rename.file :=
  Rename.mkFile [] (str "backup") (str ".2024-12-25T09-05-07-snapshot-full").

(** The file of the second scenario of the specification. *)
Definition longName : Rename.file :=
  Rename.mkFile [] (str "a-very-long-original-file-name-that-exceeds-limits")
    (str ".pdf").

(** A digest that tells the empty content from the others: the MD5 of
    the empty content and of the one-byte content [0]. *)
Definition digest (content : list N) : jsString :=
  match content with
  | [] => str "d41d8cd98f00b204e9800998ecf8427e"
  | _ => str "93b885adfe0da089cdf634904fd59f71"
  end.

(** A file of exactly 100 MB. *)
Definition brim : File :=
  mkFile (str "disk.img") (100 * 1024 * 1024) (str "application/x-raw") 4.

(** A file whose name has its last dot in a directory component. *)
Definition nested : File := mkFile (str "dir.v2/file") 10 (str "text/plain") 3.

(** A dot file: its name without extension is empty. *)
Definition bashrc : File := mkFile (str ".bashrc") 120 (str "") 2.

Definition secret : jsString := str "sk_live_secret".

(** A bucket that completes every put, behind [https://cdn.example.com]. *)
Definition bindings (format : option jsString) : Bindings :=
  mkBindings (fun _ => true) (Some secret)
    (Some (str "https://cdn.example.com")) format.

Definition post (credential : jsString) (f : File)
    (custom : option formValue) : Request :=
  mkRequest (Some credential) (Some (str "10.0.0.5"))
    (Normal (mkBody (Some (FormFile f)) custom)).

(** A platform that creates typed arrays up to the greatest length the
    language allows, 2^53 - 1. *)
Definition maxLength : N := 9007199254740991.

Definition maxLength_quota : (65536 <=? maxLength)%N = true := eq_refl.

(** Random sources: the bytes 0, 1, 2, ...; all bytes 0; all bytes 255. *)
Definition counting : Entropy := mkEntropy (fun i => N.of_nat i) 0 maxLength maxLength_quota.
Definition zeros : Entropy := mkEntropy (fun _ => 0%N) 0 maxLength maxLength_quota.
Definition ones : Entropy := mkEntropy (fun _ => 255%N) 0 maxLength maxLength_quota.

Definition fresh : World := mkWorld counting [].

Definition arrive (r : Request) : Arrival := mkArrival christmas christmas r.

(** One hour after [christmas]. *)
Definition hourLater : Date := mkDate 2024 11 25 10 5 7 1735121107123.

(** From 10.0.0.5: three attempts with a wrong credential, a fourth at
    once with the right one, a fifth with the right one an hour later. *)
Definition attempts : list Arrival :=
  [arrive (post (str "guess1") photo None);
   arrive (post (str "guess2") photo None);
   arrive (post (str "guess3") photo None);
   arrive (post secret photo None);
   mkArrival hourLater hourLater (post secret photo None)].

End Sample.

(* ================================================================== *)
(** * src/index.ts: the CORS policy and the home page *)
(* ================================================================== *)

Module Pages.

(** [s.indexOf(pat)] and [s.replace(pat, replacement)] with a string
    pattern: the first occurrence only is replaced, and the replacement
    text is read as for a regular expression.  [before] is the part of
    the subject already read. *)
Fixpoint replaceFirstFrom (pat replacement before s : jsString) : jsString :=
  match s with
  | [] =>
      if startsWith pat [] then getSubstitution pat before [] replacement else []
  | c :: rest =>
      if startsWith pat s
      then getSubstitution pat before (skipn (length pat) s) replacement
             ++ skipn (length pat) s
      else c :: replaceFirstFrom pat replacement (before ++ [c]) rest
  end.

Definition replaceFirst (pat replacement s : jsString) : jsString :=
  replaceFirstFrom pat replacement [] s.

(** [a.includes(x)] on an array of strings. *)
Definition includes (a : list jsString) (x : jsString) : bool :=
  existsb (eqbS x) a.

(** Lines 20-23: the [origin] callback given to [cors].  [CORS_ORIGINS]
    is the binding, [None] when it is not set; the result [None] is
    [undefined]. *)
Definition origin (CORS_ORIGINS : option jsString) (origin : jsString)
    : option jsString :=
  let allowedOrigins := split (ch ",") (orElse CORS_ORIGINS []) in
  if includes allowedOrigins origin then Some origin
  else nth_error allowedOrigins 0.

(** Lines 34-37: the body of the home page.  [htmlContent] is the imported
    [index.html] and [APP_TITLE] the binding. *)
Definition home (htmlContent : jsString) (APP_TITLE : option jsString) : jsString :=
  let title := orElse APP_TITLE (str "ByteGo") in
  replaceFirst (str "{{APP_TITLE}}") title htmlContent.

End Pages.

(* ================================================================== *)
(** * Vocabulary of templates and dates *)
(* ================================================================== *)

Module Template.

(** A template read as text without opening brace and variables. *)
Inductive token :=
| Text (c : codeUnit)
| Var (name : jsString).

Definition renderToken (t : token) : jsString :=
  match t with
  | Text c => [c]
  | Var a => placeholder a
  end.

Definition render (ts : list token) : jsString := flat_map renderToken ts.

Definition wellFormedToken (t : token) : Prop :=
  match t with
  | Text c => notOpening c
  | Var a => plain a
  end.

Definition wellFormed (ts : list token) : Prop := Forall wellFormedToken ts.

(** One variable gives way to a text, token by token. *)
Definition substituteToken (a r : jsString) (t : token) : list token :=
  match t with
  | Text c => [Text c]
  | Var b => if eqbS b a then map Text r else [Var b]
  end.

Definition substitute (a r : jsString) (ts : list token) : list token :=
  flat_map (substituteToken a r) ts.

Section Values.

Variable printDouble : Z -> jsString.
Variable now : Date.
Variable filename : jsString.

(** The value of a variable of the clock or of the file name. *)
Definition namedValue (a : jsString) : option jsString :=
  if eqbS a (str "year") then Some (year now)
  else if eqbS a (str "month") then Some (month now)
  else if eqbS a (str "day") then Some (day now)
  else if eqbS a (str "date") then Some (dateStr now)
  else if eqbS a (str "time") then Some (timeStr now)
  else if eqbS a (str "timestamp") then Some (timestamp now)
  else if eqbS a (str "timestamp_nano") then Some (timestampNano printDouble now)
  else if eqbS a (str "originname") then Some (originName filename)
  else if eqbS a (str "originname_without_ext")
       then Some (originNameWithoutExt filename)
  else if eqbS a (str "ext") then Some (ext filename)
  else None.

(** A template with every clock and file name variable replaced by its
    value and everything else left as it is. *)
Definition instantiateToken (t : token) : jsString :=
  match t with
  | Text c => [c]
  | Var a => match namedValue a with
             | Some v => v
             | None => placeholder a
             end
  end.

Definition instantiate (ts : list token) : jsString :=
  flat_map instantiateToken ts.

(** The ten replacements in the order of [parsePath], on tokens. *)
Definition substituteNamed (ts : list token) : list token :=
  let ts := substitute (str "year") (year now) ts in
  let ts := substitute (str "month") (month now) ts in
  let ts := substitute (str "day") (day now) ts in
  let ts := substitute (str "date") (dateStr now) ts in
  let ts := substitute (str "time") (timeStr now) ts in
  let ts := substitute (str "timestamp") (timestamp now) ts in
  let ts := substitute (str "timestamp_nano") (timestampNano printDouble now) ts in
  let ts := substitute (str "originname") (originName filename) ts in
  let ts := substitute (str "originname_without_ext")
              (originNameWithoutExt filename) ts in
  let ts := substitute (str "ext") (ext filename) ts in
  ts.

End Values.

(** The default path format as tokens. *)
Definition defaultTokens : list token :=
  [Var (str "year"); Text (ch "/"); Var (str "month"); Text (ch "/");
   Var (str "day"); Text (ch "/"); Var (str "randomkey16"); Var (str "ext")].

Definition isDigit (c : codeUnit) : bool := ((ch "0" <=? c) && (c <=? ch "9"))%N.

Definition isDigitOrMinus (c : codeUnit) : bool :=
  (isDigit c || (c =? ch "-"))%N.

(** A reading of the clock in the years 1000 to 9999. *)
Definition fourDigitYear (now : Date) : Prop :=
  (1000 <= getFullYear now <= 9999)%Z
  /\ (0 <= getMonth now <= 11)%Z
  /\ (1 <= getDate now <= 31)%Z
  /\ (0 <= getHours now <= 23)%Z
  /\ (0 <= getMinutes now <= 59)%Z
  /\ (0 <= getSeconds now <= 59)%Z.

(** [z] printed and padded has exactly [n] decimal digits. *)
Definition printsDigits (n : nat) (s : jsString) : bool :=
  (length s =? n)%nat && forallb isDigit s.

(** The thirteen variables that [parsePath] replaces. *)
Definition allPlaceholders : list jsString :=
  timePlaceholders
    ++ [str "{originname}"; str "{originname_without_ext}"; str "{ext}"]
    ++ randomPlaceholders.

(** The answer reports a success. *)
Definition succeeded (r : Worker.Response) : bool := (Worker.status r =? 200)%N.

End Template.

Import Template.

(* ================================================================== *)
(** * Random hexadecimal strings *)
(* ================================================================== *)

Section RandomHex.

Local Open Scope nat_scope.

Lemma Forall_firstn (A : Type) (P : A -> Prop) (n : nat) (l : list A) :
  Forall P l -> Forall P (firstn n l).
Proof.
  intros H. rewrite <- (firstn_skipn n l) in H.
  now apply Forall_app in H.
Qed.

Lemma hexByte_table : forallb hexByteOk (map N.of_nat (seq 0 256)) = true.
Proof. vm_compute. reflexivity. Qed.

Lemma hexByte_ok (b : N) : (b < 256)%N -> hexByteOk b = true.
Proof.
  intros Hb.
  pose proof hexByte_table as T.
  rewrite forallb_forall in T.
  apply T.
  rewrite <- (N2Nat.id b).
  apply in_map, in_seq.
  lia.
Qed.

Lemma hexByte_length (b : N) : (b < 256)%N -> length (hexByte b) = 2.
Proof.
  intros Hb. apply hexByte_ok in Hb.
  unfold hexByteOk in Hb.
  apply andb_true_iff in Hb as [Hb _].
  apply andb_true_iff in Hb as [L _].
  now apply Nat.eqb_eq.
Qed.

Lemma hexByte_read_back (b : N) : (b < 256)%N -> byteOfHex (hexByte b) = b.
Proof.
  intros Hb. apply hexByte_ok in Hb.
  unfold hexByteOk in Hb.
  apply andb_true_iff in Hb as [_ R].
  now apply N.eqb_eq.
Qed.

Lemma hexByte_digits (b : N) :
  (b < 256)%N -> Forall (fun c => isLowerHexDigit c = true) (hexByte b).
Proof.
  intros Hb. apply hexByte_ok in Hb.
  unfold hexByteOk in Hb.
  apply andb_true_iff in Hb as [Hb _].
  apply andb_true_iff in Hb as [_ D].
  apply Forall_forall.
  now apply forallb_forall.
Qed.

Lemma window_bytes (n : nat) (e : Entropy) :
  Forall (fun b => (b < 256)%N) (window n e).
Proof.
  unfold window.
  apply Forall_forall.
  intros b Hin.
  apply in_map_iff in Hin as (i & <- & _).
  apply N.mod_lt. discriminate.
Qed.

Lemma window_length (n : nat) (e : Entropy) : length (window n e) = n.
Proof. unfold window. now rewrite length_map, length_seq. Qed.

Lemma hex_length (bs : list N) :
  Forall (fun b => (b < 256)%N) bs ->
  length (concat (map hexByte bs)) = 2 * length bs.
Proof.
  induction 1 as [|b bs Hb _ IH]; simpl; [reflexivity|].
  rewrite length_app, IH, (hexByte_length Hb). lia.
Qed.

Lemma hex_digits (bs : list N) :
  Forall (fun b => (b < 256)%N) bs ->
  Forall (fun c => isLowerHexDigit c = true) (concat (map hexByte bs)).
Proof.
  induction 1 as [|b bs Hb _ IH]; simpl; [constructor|].
  apply Forall_app. split; [now apply hexByte_digits | exact IH].
Qed.

Lemma ceilHalf_covers (n : N) : (n <= 2 * ceilHalf n)%N.
Proof.
  unfold ceilHalf.
  pose proof (N.div_mod (n + 1) 2 ltac:(discriminate)) as D.
  pose proof (N.mod_lt (n + 1) 2 ltac:(discriminate)) as M.
  lia.
Qed.

Lemma ceilHalf_quota (n : N) : (n <= 131072)%N -> (ceilHalf n <= 65536)%N.
Proof.
  intros Hn. unfold ceilHalf.
  change 65536%N with (131073 / 2)%N.
  apply N.Div0.div_le_mono. lia.
Qed.

Lemma arrayLimit_covers (e : Entropy) : (65536 <= arrayLimit e)%N.
Proof. apply N.leb_le, arrayLimit_quota. Qed.

(** An array within the quota is created and filled. *)
Lemma array_filled (len : N) (e : Entropy) :
  (len <= 65536)%N ->
  bind (newUint8Array len) getRandomValues e
  = Normal (window (N.to_nat len) e, advance (N.to_nat len) e).
Proof.
  intros H. pose proof (arrayLimit_covers e) as L.
  unfold bind, newUint8Array.
  destruct (N.ltb_spec (arrayLimit e) len) as [Hlim|_]; [lia|].
  unfold getRandomValues. rewrite repeat_length, N2Nat.id.
  destruct (N.ltb_spec 65536 len) as [Hq|_]; [lia|].
  reflexivity.
Qed.

(** An array beyond the quota: the RangeError of its creation when the
    platform does not create it, the QuotaExceededError of the random
    source when it does. *)
Lemma array_refused (len : N) (e : Entropy) :
  (65536 < len)%N ->
  bind (newUint8Array len) getRandomValues e
  = Throw (if (arrayLimit e <? len)%N then RangeError else QuotaExceededError).
Proof.
  intros H. unfold bind, newUint8Array.
  destruct (arrayLimit e <? len)%N; [reflexivity|].
  unfold getRandomValues. rewrite repeat_length, N2Nat.id.
  destruct (N.ltb_spec 65536 len) as [_|Hq]; [reflexivity | lia].
Qed.

Lemma generateRandomHex_steps (n : N) (e : Entropy) :
  generateRandomHex n e
  = match bind (newUint8Array (ceilHalf n)) getRandomValues e with
    | Normal (array, e') =>
        Normal (slice0 (concat (map hexByte array)) (N.to_nat n), e')
    | Throw x => Throw x
    end.
Proof.
  unfold generateRandomHex, bind, ret.
  destruct (newUint8Array (ceilHalf n) e) as [[a e1]|x]; [|reflexivity].
  destruct (getRandomValues a e1) as [[a2 e2]|x]; reflexivity.
Qed.

(** What [generateRandomHex] returns within the quota: the first [n]
    digits of the bytes drawn. *)
Lemma generateRandomHex_value (n : N) (e : Entropy) :
  (n <= 131072)%N ->
  generateRandomHex n e =
    Normal (firstn (N.to_nat n)
              (concat (map hexByte (window (N.to_nat (ceilHalf n)) e))),
            advance (N.to_nat (ceilHalf n)) e).
Proof.
  intros Hn.
  rewrite generateRandomHex_steps, array_filled by now apply ceilHalf_quota.
  reflexivity.
Qed.

End RandomHex.

(** C10, as it holds.  For every length [n] from 0 to 131072,
    [generateRandomHex(n)] returns a string of exactly [n] characters, each
    a lowercase hexadecimal digit; it draws [ceil(n/2)] bytes.  For a
    greater [n] the call does not return: it throws, either where the
    array of [ceil(n/2)] bytes is created, when the platform does not
    create an array of that length, or where the random source is asked
    for more than 65536 bytes at once. *)
Theorem generateRandomHex_length_and_digits (n : N) (e : Entropy) :
  ((n <= 131072)%N ->
   exists s,
     generateRandomHex n e = Normal (s, advance (N.to_nat (ceilHalf n)) e)
     /\ length s = N.to_nat n
     /\ Forall (fun c => isLowerHexDigit c = true) s)
  /\ ((131072 < n)%N ->
      generateRandomHex n e
      = Throw (if (arrayLimit e <? ceilHalf n)%N then RangeError
               else QuotaExceededError)).
Proof.
  split.
  - intros Hn.
    eexists. split; [apply generateRandomHex_value, Hn|].
    pose proof (window_bytes (N.to_nat (ceilHalf n)) e) as B.
    split.
    + rewrite length_firstn, (hex_length B), window_length.
      pose proof (ceilHalf_covers n). lia.
    + apply Forall_firstn, hex_digits, B.
  - intros Hn.
    assert (Q : (65537 <= ceilHalf n)%N).
    { unfold ceilHalf. change 65537%N with (131074 / 2)%N.
      apply N.Div0.div_le_mono. lia. }
    rewrite generateRandomHex_steps, array_refused by lia.
    reflexivity.
Qed.

Lemma generateRandomHex_length_and_digits_witness :
  (8 <= 131072)%N
  /\ exists s,
       generateRandomHex 8 Sample.counting
         = Normal (s, advance (N.to_nat (ceilHalf 8)) Sample.counting)
       /\ length s = N.to_nat 8
       /\ Forall (fun c => isLowerHexDigit c = true) s.
Proof.
  assert (H : (8 <= 131072)%N) by (vm_compute; discriminate).
  split; [exact H|].
  exact (proj1 (@generateRandomHex_length_and_digits 8 Sample.counting) H).
Defined.

(** C10, as stated, fails beyond the quota of the random source: a length
    of 131073 asks for 65537 bytes and the call throws instead of
    returning a string.  A length of 2^54 fails earlier, where the array
    is created. *)
Lemma generateRandomHex_beyond_quota :
  generateRandomHex 131073 Sample.zeros = Throw QuotaExceededError
  /\ (~ exists s e', generateRandomHex 131073 Sample.zeros = Normal (s, e'))
  /\ generateRandomHex 18014398509481984 Sample.zeros = Throw RangeError.
Proof.
  assert (E : generateRandomHex 131073 Sample.zeros = Throw QuotaExceededError)
    by (vm_compute; reflexivity).
  split; [exact E|]. split; [|vm_compute; reflexivity].
  intros (s & e' & H). rewrite E in H. discriminate.
Qed.

(* ================================================================== *)
(** * File name sanitization and the extension *)
(* ================================================================== *)

Section Sanitizer.

Lemma afterLast_none (f : codeUnit -> bool) (s : jsString) :
  existsb f s = false -> afterLast f s = s.
Proof.
  destruct s as [|c s]; simpl; [reflexivity|].
  intros H. apply orb_false_iff in H as [Hc Hs].
  now rewrite Hs, Hc.
Qed.

Lemma split_whole (c : codeUnit) (s : jsString) :
  existsb (fun x => (x =? c)%N) s = false -> split c s = [s].
Proof.
  induction s as [|x s IH]; simpl; [reflexivity|].
  intros H. apply orb_false_iff in H as [Hx Hs].
  now rewrite Hx, (IH Hs).
Qed.

Lemma split_several (c : codeUnit) (s : jsString) :
  existsb (fun x => (x =? c)%N) s = true ->
  exists seg seg' segs, split c s = seg :: seg' :: segs.
Proof.
  induction s as [|x s IH]; simpl; [discriminate|].
  intros H.
  destruct (x =? c)%N eqn:Hx.
  - destruct (split c s) as [|seg' segs] eqn:E.
    + destruct s; simpl in E; [discriminate|].
      destruct (_ =? _)%N; [discriminate|]. destruct (split c s); discriminate.
    + now exists [], seg', segs.
  - simpl in H. destruct (IH H) as (seg & seg' & segs & E).
    rewrite E. now exists (x :: seg), seg', segs.
Qed.

(** [s.split(c).pop()] is what follows the last [c]. *)
Lemma pop_split (c : codeUnit) (s : jsString) :
  pop (split c s) = Some (afterLast (fun x => (x =? c)%N) s).
Proof.
  induction s as [|x s IH]; [reflexivity|].
  cbn [split afterLast].
  destruct (existsb _ s) eqn:Hs.
  - destruct (split_several c s Hs) as (seg & seg' & segs & E).
    rewrite E in IH |- *.
    destruct (x =? c)%N; exact IH.
  - rewrite (split_whole c s Hs).
    destruct (x =? c)%N; reflexivity.
Qed.

Lemma afterLast_either (f g : codeUnit -> bool) (s : jsString) :
  existsb f s = false ->
  afterLast (fun c => f c || g c) s = afterLast g s.
Proof.
  induction s as [|c s IH]; simpl; [reflexivity|].
  intros H. apply orb_false_iff in H as [Hc Hs].
  rewrite (IH Hs), Hc. simpl.
  replace (existsb (fun c0 => f c0 || g c0) s) with (existsb g s); [reflexivity|].
  clear IH. induction s as [|y s IHs]; simpl; [reflexivity|].
  simpl in Hs. apply orb_false_iff in Hs as [Hy Hs].
  now rewrite Hy, (IHs Hs).
Qed.

Lemma afterLast_twice (f g : codeUnit -> bool) (s : jsString) :
  afterLast g (afterLast f s) = afterLast (fun c => f c || g c) s.
Proof.
  induction s as [|c s IH]; [reflexivity|].
  destruct (existsb f s) eqn:Hs.
  - cbn [afterLast]. rewrite Hs.
    assert (E : existsb (fun c0 => f c0 || g c0) s = true).
    { apply existsb_exists in Hs as (x & Hin & Hx).
      apply existsb_exists. exists x. now rewrite Hx. }
    now rewrite E.
  - destruct (f c) eqn:Hc.
    + cbn [afterLast]. rewrite Hs, Hc. simpl.
      rewrite (afterLast_either f g s Hs).
      destruct (existsb (fun c0 => f c0 || g c0) s) eqn:E; [reflexivity|].
      apply afterLast_none.
      rewrite <- E. clear E IH.
      induction s as [|y s IHs]; simpl; [reflexivity|].
      simpl in Hs. apply orb_false_iff in Hs as [Hy Hs].
      now rewrite Hy, (IHs Hs).
    + replace (afterLast f (c :: s)) with (c :: s)
        by (symmetry; apply afterLast_none; simpl; now rewrite Hc, Hs).
      symmetry. apply afterLast_either. simpl. now rewrite Hc, Hs.
Qed.

(** The optional chain of the source always yields the final segment. *)
Lemma lastSegment_final (filename : jsString) :
  lastSegment filename = Some (finalSegment filename).
Proof.
  unfold lastSegment, finalSegment.
  rewrite pop_split, pop_split, afterLast_twice.
  reflexivity.
Qed.

Lemma replaceUnsafe_safe (s : jsString) :
  Forall (fun c => isSafeChar c = true) (replaceUnsafe s).
Proof.
  unfold replaceUnsafe.
  induction s as [|c s IH]; simpl; constructor; [|exact IH].
  destruct (isSafeChar c) eqn:E; [exact E | reflexivity].
Qed.

Lemma safe_not_separator (c : codeUnit) :
  isSafeChar c = true -> isSeparator c = false.
Proof.
  unfold isSafeChar, isSeparator, ch. simpl.
  intros H.
  destruct (N.eqb_spec c 47), (N.eqb_spec c 92); subst; try reflexivity;
    vm_compute in H; discriminate.
Qed.

Lemma safe_not_dollar (c : codeUnit) :
  isSafeChar c = true -> (c =? ch "$")%N = false.
Proof.
  intros H. destruct (N.eqb_spec c (ch "$")); [subst|reflexivity].
  vm_compute in H. discriminate.
Qed.

(** A replacement text without [$] is inserted as it is. *)
Lemma getSubstitution_plain (matched before after r : jsString) :
  Forall (fun c => (c =? ch "$")%N = false) r ->
  getSubstitution matched before after r = r.
Proof.
  induction 1 as [|c r Hc _ IH]; [reflexivity|].
  cbn [getSubstitution]. now rewrite Hc, IH.
Qed.

End Sanitizer.

(** C5, as it holds.  For every file name the text substituted for
    [{originname}] holds only characters of [A-Za-z0-9._-], hence no path
    separator.  It is the final segment of the name split on both kinds of
    slash, or the whole name when that segment is empty, with every
    character outside the set replaced by [_]; and it is inserted as it
    is at each [{originname}]. *)
Theorem originName_sanitized (filename : jsString) :
  Forall (fun c => isSafeChar c = true) (originName filename)
  /\ Forall (fun c => isSeparator c = false) (originName filename)
  /\ originName filename =
       replaceUnsafe (match finalSegment filename with
                      | [] => filename
                      | _ :: _ => finalSegment filename
                      end)
  /\ forall before after,
       expand (str "{originname}") (originName filename) (Hit before after)
       = originName filename.
Proof.
  assert (S : Forall (fun c => isSafeChar c = true) (originName filename))
    by apply replaceUnsafe_safe.
  repeat split.
  - exact S.
  - eapply Forall_impl; [|exact S]. apply safe_not_separator.
  - unfold originName, safeFilename. rewrite lastSegment_final.
    unfold orElse. now destruct (finalSegment filename).
  - intros before after. cbn [expand].
    apply getSubstitution_plain.
    eapply Forall_impl; [|exact S]. apply safe_not_dollar.
Qed.

(** C5, as stated, fails on a name that ends with a separator: the final
    segment is empty and the whole name is sanitized instead, so the
    directory component stays. *)
Lemma originName_keeps_directory :
  originName (str "dir/") = str "dir_"
  /\ finalSegment (str "dir/") = []
  /\ originName (str "dir/") <> replaceUnsafe (finalSegment (str "dir/")).
Proof.
  repeat split; try reflexivity.
  vm_compute. discriminate.
Qed.

(* ================================================================== *)
(** * Matches of a literal pattern *)
(* ================================================================== *)

Section Matches.

(** Where the pattern does not occur nothing is replaced. *)
Lemma scan_absent (pat : jsString) (s before : jsString) :
  occurs pat s = false -> scan pat 0 before s = map Lit s.
Proof.
  revert before.
  induction s as [|c s IH]; intros before H; [reflexivity|].
  cbn [occurs] in H. apply orb_false_iff in H as [H1 H2].
  cbn [scan map]. rewrite H1. f_equal. now apply IH.
Qed.

Lemma expand_lits (pat r s : jsString) :
  flat_map (expand pat r) (map Lit s) = s.
Proof. induction s as [|c s IH]; simpl; [reflexivity | now rewrite IH]. Qed.

Lemma replaceAll_absent (pat r s : jsString) :
  occurs pat s = false -> replaceAll pat r s = s.
Proof.
  intros H. unfold replaceAll, matchAll.
  rewrite scan_absent by exact H. apply expand_lits.
Qed.

Lemma fill_lits (f : Eff jsString) (s : jsString) (e : Entropy) :
  fill f (map Lit s) e = Normal (s, e).
Proof.
  induction s as [|c s IH]; [reflexivity|].
  cbn [map fill]. unfold bind. now rewrite IH.
Qed.

Lemma replaceAllWith_absent (pat : jsString) (f : Eff jsString)
    (s : jsString) (e : Entropy) :
  occurs pat s = false -> replaceAllWith pat f s e = Normal (s, e).
Proof.
  intros H. unfold replaceAllWith, matchAll.
  rewrite scan_absent by exact H. apply fill_lits.
Qed.

(** Without a random placeholder left, nothing is drawn. *)
Lemma replaceRandom_absent (path : jsString) (e : Entropy) :
  free randomPlaceholders path = true ->
  replaceRandom path e = Normal (path, e).
Proof.
  unfold free, randomPlaceholders. cbn [forallb].
  intros H.
  apply andb_true_iff in H as [H8 H].
  apply andb_true_iff in H as [H16 H].
  apply andb_true_iff in H as [Hu _].
  apply negb_true_iff in H8, H16, Hu.
  unfold replaceRandom, bind.
  rewrite replaceAllWith_absent by exact H8.
  rewrite replaceAllWith_absent by exact H16.
  rewrite replaceAllWith_absent by exact Hu.
  reflexivity.
Qed.

End Matches.

(* ================================================================== *)
(** * The extension *)
(* ================================================================== *)

Section Extension.

Lemma lastIndexOfFrom_absent (c : codeUnit) (s : jsString) (i best : Z) :
  ~ In c s -> lastIndexOfFrom c s i best = best.
Proof.
  revert i best.
  induction s as [|x s IH]; intros i best H; [reflexivity|].
  cbn [lastIndexOfFrom].
  destruct (N.eqb_spec x c) as [->|_]; [exfalso; apply H; now left|].
  apply IH. intros Hin. apply H. now right.
Qed.

Lemma lastIndexOfFrom_last (c : codeUnit) (pre post : jsString) (i best : Z) :
  ~ In c post ->
  lastIndexOfFrom c (pre ++ c :: post) i best = (i + Z.of_nat (length pre))%Z.
Proof.
  intros H. revert i best.
  induction pre as [|x pre IH]; intros i best.
  - cbn [app lastIndexOfFrom length]. rewrite N.eqb_refl.
    rewrite lastIndexOfFrom_absent by exact H. simpl. lia.
  - cbn [app lastIndexOfFrom length]. rewrite IH. lia.
Qed.

Lemma lastIndexOf_last (c : codeUnit) (pre post : jsString) :
  ~ In c post -> lastIndexOf c (pre ++ c :: post) = Z.of_nat (length pre).
Proof. intros H. unfold lastIndexOf. now rewrite lastIndexOfFrom_last. Qed.

Lemma substring1_suffix (pre post : jsString) :
  substring1 (pre ++ post) (Z.of_nat (length pre)) = post.
Proof.
  unfold substring1, substring2, clampIndex.
  rewrite length_app.
  replace (Z.to_nat (Z.max 0 (Z.min (Z.of_nat (length pre))
             (Z.of_nat (length pre + length post))))) with (length pre) by lia.
  replace (Z.to_nat (Z.max 0 (Z.min (Z.of_nat (length pre + length post))
             (Z.of_nat (length pre + length post)))))
    with (length pre + length post)%nat by lia.
  replace (Nat.min (length pre) (length pre + length post)) with (length pre) by lia.
  replace (Nat.max (length pre) (length pre + length post) - length pre)%nat
    with (length post) by lia.
  rewrite skipn_app, skipn_all, Nat.sub_diag. simpl.
  apply firstn_all.
Qed.

(** The extension is cut from the file name as it was received, at its
    last dot, whatever follows that dot. *)
Lemma ext_from_last_dot (pre post : jsString) :
  ~ In (ch ".") post -> ext (pre ++ ch "." :: post) = ch "." :: post.
Proof.
  intros H. unfold ext, extIndex.
  rewrite lastIndexOf_last by exact H.
  destruct (Z.eqb_spec (Z.of_nat (length pre)) (-1)); [lia|].
  apply substring1_suffix.
Qed.

End Extension.

(** C9.  The extension substituted for [{ext}] is the part of the received
    file name from its last dot on, not a part of the sanitized final
    segment.  For [dir.v2/file] it is [.v2/file]: it holds a path separator,
    a character outside [A-Za-z0-9._-], while the sanitized name is [file].
    It reaches the key: with the default path format the file is put under
    [2024/12/25/0001020304050607.v2/file], and the template [{ext}]
    resolves to exactly [.v2/file]. *)
Theorem ext_from_unsanitized_filename :
  (forall pre post : jsString,
      ~ In (ch ".") post -> ext (pre ++ ch "." :: post) = ch "." :: post)
  /\ ext (str "dir.v2/file") = str ".v2/file"
  /\ originName (str "dir.v2/file") = str "file"
  /\ existsb isSeparator (ext (str "dir.v2/file")) = true
  /\ forallb isSafeChar (ext (str "dir.v2/file")) = false
  /\ map Worker.key
       (Worker.puts
          (snd (Worker.upload toString (Sample.bindings None)
                  Sample.christmas Sample.christmas
                  (Sample.post Sample.secret Sample.nested None) Sample.fresh)))
     = [str "2024/12/25/0001020304050607.v2/file"]
  /\ forall (printDouble : Z -> jsString) (now : Date) (e : Entropy),
       parsePath printDouble now (str "dir.v2/file") (str "{ext}") e
       = Normal (str ".v2/file", e).
Proof.
  split; [exact ext_from_last_dot|].
  do 5 (split; [vm_compute; reflexivity|]).
  intros printDouble now e. unfold parsePath, replaceNamed.
  repeat (rewrite replaceAll_absent by reflexivity).
  replace (replaceAll (str "{ext}") (ext (str "dir.v2/file")) (str "{ext}"))
    with (str ".v2/file") by (vm_compute; reflexivity).
  apply replaceRandom_absent. vm_compute. reflexivity.
Qed.

Lemma ext_from_unsanitized_filename_witness :
  ~ In (ch ".") (str "v2/file")
  /\ ext (str "dir" ++ ch "." :: str "v2/file") = ch "." :: str "v2/file".
Proof.
  assert (H : ~ In (ch ".") (str "v2/file")).
  { vm_compute. intuition discriminate. }
  split; [exact H|].
  exact (proj1 ext_from_unsanitized_filename (str "dir") (str "v2/file") H).
Defined.

(* ================================================================== *)
(** * The upload endpoint *)
(* ================================================================== *)

Section Endpoint.

Import Worker.

Variable printDouble : Z -> jsString.
Variable env : Bindings.
Variables now stamp : Date.

Lemma eqbS_true (a b : jsString) : eqbS a b = true <-> a = b.
Proof. unfold eqbS. destruct (list_eq_dec N.eq_dec a b); split; congruence. Qed.

Lemma eqbS_refl (a : jsString) : eqbS a a = true.
Proof. now apply eqbS_true. Qed.

(** An admitted request reaches the [try] block. *)
Lemma upload_admitted (req : Request) (w : World) :
  admitted env req ->
  upload printDouble env now stamp req w =
    match parseBody req with
    | Normal b => store printDouble env now stamp req b w
    | Throw x => (uploadFailed x, w)
    end.
Proof.
  intros (k & Hk & Ht & Ha). unfold upload.
  now rewrite Hk, Ht, Ha, eqbS_refl.
Qed.

(** Without the secret the answer is 401 or 500 and nothing else
    happens. *)
Lemma upload_refused (req : Request) (w : World) :
  ~ admitted env req ->
  snd (upload printDouble env now stamp req w) = w
  /\ (status (fst (upload printDouble env now stamp req w)) = 401
      \/ status (fst (upload printDouble env now stamp req w)) = 500)%N.
Proof.
  intros H. unfold upload.
  destruct (AUTH_KEY env) as [k|] eqn:Hk; [|now split; [|right]].
  destruct (truthy k) eqn:Ht; [|now split; [|right]].
  destruct (Authorization req) as [a|] eqn:Ha; [|now split; [|left]].
  destruct (eqbS a k) eqn:E; [|now split; [|left]].
  exfalso. apply H. exists k. apply eqbS_true in E. now subst.
Qed.

Lemma stripLeadingSlashes_done (s : jsString) :
  startsWith (str "/") (stripLeadingSlashes s) = false.
Proof.
  unfold stripLeadingSlashes.
  induction s as [|c s IH]; [reflexivity|].
  cbn [dropWhile]. destruct (c =? ch "/")%N eqn:E; [exact IH|].
  change ((ch "/" =? c)%N && true = false).
  now rewrite N.eqb_sym, E.
Qed.

Lemma dropOneSlash_stripped (s : jsString) :
  dropOneSlash (stripLeadingSlashes s) = stripLeadingSlashes s.
Proof. unfold dropOneSlash. now rewrite stripLeadingSlashes_done. Qed.

Lemma trim_blank (cp : jsString) : trim cp <> [] -> eqbS (trim cp) [] = false.
Proof.
  intros H. destruct (eqbS (trim cp) []) eqn:E; [|reflexivity].
  now apply eqbS_true in E.
Qed.

End Endpoint.

(** C7.  For every upload request whose file is larger than the limit of
    100 MB, the bucket is not written: the state is what it was and the
    answer is not a success.  Once the request is admitted the answer is
    413, file too large. *)
Theorem oversized_upload_rejected (printDouble : Z -> jsString)
    (env : Worker.Bindings) (now stamp : Date) (req : Worker.Request)
    (f : Worker.File) (custom : option Worker.formValue) (w : Worker.World) :
  carries req f custom ->
  (Worker.maxFileSize < Worker.size f)%N ->
  snd (Worker.upload printDouble env now stamp req w) = w
  /\ Worker.status (fst (Worker.upload printDouble env now stamp req w)) <> 200%N
  /\ (admitted env req ->
      fst (Worker.upload printDouble env now stamp req w)
      = Worker.json 413 (str "File too large. Max size is 100MB")).
Proof.
  intros Hb Hsize.
  assert (A : admitted env req ->
              Worker.upload printDouble env now stamp req w
              = (Worker.json 413 (str "File too large. Max size is 100MB"), w)).
  { intros Ha. rewrite upload_admitted by exact Ha.
    rewrite Hb. unfold Worker.store. cbn [Worker.file].
    apply N.ltb_lt in Hsize. now rewrite Hsize. }
  assert (D : admitted env req \/ ~ admitted env req).
  { unfold admitted.
    destruct (Worker.AUTH_KEY env) as [k|]; [|right; intros (k & H & _); discriminate].
    destruct (truthy k) eqn:Ht;
      [|right; intros (k' & H & Ht' & _); injection H as <-; congruence].
    destruct (Worker.Authorization req) as [a|];
      [|right; intros (k' & _ & _ & H); discriminate].
    destruct (list_eq_dec N.eq_dec a k) as [->|Hne].
    - left. now exists k.
    - right. intros (k' & H & _ & H'). congruence. }
  destruct D as [Ha|Hn].
  - rewrite (A Ha). cbn [fst snd Worker.status Worker.json].
    split; [reflexivity|]. split; [discriminate | reflexivity].
  - destruct (@upload_refused printDouble env now stamp req w Hn) as [Hw Hs].
    split; [exact Hw|]. split; [|contradiction].
    destruct Hs as [-> | ->]; discriminate.
Qed.

Lemma oversized_upload_rejected_witness :
  carries (Sample.post Sample.secret Sample.film None) Sample.film None
  /\ (Worker.maxFileSize < Worker.size Sample.film)%N
  /\ admitted (Sample.bindings None) (Sample.post Sample.secret Sample.film None)
  /\ Worker.upload toString (Sample.bindings None) Sample.christmas Sample.christmas
        (Sample.post Sample.secret Sample.film None) Sample.fresh
     = (Worker.json 413 (str "File too large. Max size is 100MB"), Sample.fresh).
Proof.
  assert (C : carries (Sample.post Sample.secret Sample.film None) Sample.film None)
    by reflexivity.
  assert (S : (Worker.maxFileSize < Worker.size Sample.film)%N)
    by (vm_compute; reflexivity).
  assert (A : admitted (Sample.bindings None)
                (Sample.post Sample.secret Sample.film None))
    by (exists Sample.secret; repeat split; reflexivity).
  destruct (@oversized_upload_rejected toString (Sample.bindings None)
              Sample.christmas Sample.christmas _ _ _ Sample.fresh C S)
    as (Hw & _ & Ha).
  split; [exact C|]. split; [exact S|]. split; [exact A|].
  rewrite (surjective_pairing (Worker.upload _ _ _ _ _ _)).
  now rewrite Hw, (Ha A).
Defined.

(* ================================================================== *)
(** * The override path *)
(* ================================================================== *)

(** C1, as it holds.  An admitted request with a file within the size limit
    and a non-blank override path is never rejected for the segments of
    that path: the override is trimmed, its leading slashes are removed,
    and one put is made under the result, [..] segments included.  The
    answer is a success when the bucket completes the put and a failed
    upload when it does not. *)
Theorem override_path_is_stored (printDouble : Z -> jsString)
    (env : Worker.Bindings) (now stamp : Date) (req : Worker.Request)
    (f : Worker.File) (cp : jsString) (w : Worker.World) :
  admitted env req ->
  carries req f (Some (Worker.FormString cp)) ->
  (Worker.size f <= Worker.maxFileSize)%N ->
  trim cp <> [] ->
  let path := stripLeadingSlashes (trim cp) in
  let call := Worker.putCall stamp req f path in
  Worker.upload printDouble env now stamp req w
  = (if Worker.BUCKET env call
     then Worker.mkResponse 200 (str "success") (Some (Worker.publicUrl env path)) None
     else Worker.uploadFailed StoreError,
     Worker.mkWorld (Worker.entropy w) (call :: Worker.puts w)).
Proof.
  intros Ha Hb Hsize Hcp path call.
  rewrite upload_admitted by exact Ha.
  rewrite Hb. unfold Worker.store. cbn [Worker.file Worker.customPath].
  apply N.leb_le in Hsize. rewrite N.leb_antisym in Hsize.
  apply negb_true_iff in Hsize. rewrite Hsize.
  unfold Worker.choosePath. rewrite trim_blank by exact Hcp.
  cbn [negb]. unfold ret.
  rewrite dropOneSlash_stripped.
  fold path. fold call.
  now destruct (Worker.BUCKET env call).
Qed.

Lemma override_path_is_stored_witness :
  admitted (Sample.bindings None)
    (Sample.post Sample.secret Sample.photo
       (Some (Worker.FormString (str " /assets/logo.png "))))
  /\ Worker.upload toString (Sample.bindings None) Sample.christmas Sample.christmas
       (Sample.post Sample.secret Sample.photo
          (Some (Worker.FormString (str " /assets/logo.png "))))
       Sample.fresh
     = (Worker.mkResponse 200 (str "success")
          (Some (str "https://cdn.example.com/assets/logo.png")) None,
        Worker.mkWorld (Worker.entropy Sample.fresh)
          [Worker.mkPut (str "assets/logo.png") 0 (str "image/png")
             (str "photo.png") Sample.christmas (str "10.0.0.5")]).
Proof.
  assert (A : admitted (Sample.bindings None)
                (Sample.post Sample.secret Sample.photo
                   (Some (Worker.FormString (str " /assets/logo.png ")))))
    by (exists Sample.secret; repeat split; reflexivity).
  split; [exact A|].
  refine (eq_trans
    (@override_path_is_stored toString (Sample.bindings None)
       Sample.christmas Sample.christmas _ Sample.photo
       (str " /assets/logo.png ") Sample.fresh A eq_refl _ _) _).
  - vm_compute. discriminate.
  - vm_compute. discriminate.
  - vm_compute. reflexivity.
Defined.

(** C1, as stated, fails: the override [/../../etc/passwd] is not rejected;
    the file is put under [../../etc/passwd] and the answer is a success. *)
Lemma traversal_override_accepted :
  Worker.upload toString (Sample.bindings None) Sample.christmas Sample.christmas
    (Sample.post Sample.secret Sample.photo
       (Some (Worker.FormString (str "/../../etc/passwd"))))
    Sample.fresh
  = (Worker.mkResponse 200 (str "success")
       (Some (str "https://cdn.example.com/../../etc/passwd")) None,
     Worker.mkWorld (Worker.entropy Sample.fresh)
       [Worker.mkPut (str "../../etc/passwd") 0 (str "image/png")
          (str "photo.png") Sample.christmas (str "10.0.0.5")])
  /\ Worker.puts
       (snd (Worker.upload toString (Sample.bindings None)
               Sample.christmas Sample.christmas
               (Sample.post Sample.secret Sample.photo
                  (Some (Worker.FormString (str "/../../etc/passwd"))))
               Sample.fresh))
     <> Worker.puts Sample.fresh.
Proof. split; vm_compute; [reflexivity | discriminate]. Qed.

(* ================================================================== *)
(** * The leading slash of the key *)
(* ================================================================== *)

(** The last check removes one slash: the key begins with a slash exactly
    when the path began with two. *)
Lemma dropOneSlash_leaves (path : jsString) :
  startsWith (str "/") (Worker.dropOneSlash path) = startsWith (str "//") path.
Proof.
  unfold Worker.dropOneSlash.
  destruct path as [|c path]; [reflexivity|].
  change (startsWith (str "/") (c :: path)) with ((ch "/" =? c)%N && true).
  change (startsWith (str "//") (c :: path))
    with ((ch "/" =? c)%N && startsWith (str "/") path).
  destruct (ch "/" =? c)%N eqn:E; cbn [andb].
  - unfold substring1, substring2, clampIndex.
    cbn [length].
    replace (Z.to_nat (Z.max 0 (Z.min 1 (Z.of_nat (S (length path)))))) with 1%nat by lia.
    replace (Z.to_nat (Z.max 0 (Z.min (Z.of_nat (S (length path)))
               (Z.of_nat (S (length path)))))) with (S (length path)) by lia.
    replace (Nat.min 1 (S (length path))) with 1%nat by lia.
    replace (Nat.max 1 (S (length path)) - 1)%nat with (length path) by lia.
    cbn [skipn]. now rewrite firstn_all.
  - change (startsWith (str "/") (c :: path)) with ((ch "/" =? c)%N && true).
    now rewrite E.
Qed.

(** A key taken from an override path never begins with a slash. *)
Lemma override_key_without_slash (printDouble : Z -> jsString)
    (env : Worker.Bindings) (now stamp : Date) (req : Worker.Request)
    (f : Worker.File) (cp : jsString) (w : Worker.World) :
  admitted env req ->
  carries req f (Some (Worker.FormString cp)) ->
  (Worker.size f <= Worker.maxFileSize)%N ->
  trim cp <> [] ->
  exists call,
    Worker.puts (snd (Worker.upload printDouble env now stamp req w))
    = call :: Worker.puts w
    /\ startsWith (str "/") (Worker.key call) = false.
Proof.
  intros Ha Hb Hsize Hcp.
  assert (A : admitted env req) by exact Ha.
  destruct Ha as (k & Hk & Ht & Hh).
  unfold carries in Hb.
  exists (Worker.putCall stamp req f (stripLeadingSlashes (trim cp))).
  split; [|apply stripLeadingSlashes_done].
  rewrite upload_admitted by exact A.
  rewrite Hb. unfold Worker.store. cbn [Worker.file Worker.customPath].
  apply N.leb_le in Hsize. rewrite N.leb_antisym in Hsize.
  apply negb_true_iff in Hsize. rewrite Hsize.
  unfold Worker.choosePath. rewrite trim_blank by exact Hcp.
  cbn [negb]. unfold ret. rewrite dropOneSlash_stripped.
  now destruct (Worker.BUCKET env _).
Qed.

(** C6 at a failing input.  With the path format
    [/{originname_without_ext}/{originname}] and the file [.bashrc] the
    resolved path is [//.bashrc]; one slash is removed and the file is put
    under [/.bashrc], a key that begins with a slash. *)
Theorem template_key_begins_with_slash :
  Worker.upload toString
    (Sample.bindings (Some (str "/{originname_without_ext}/{originname}")))
    Sample.christmas Sample.christmas
    (Sample.post Sample.secret Sample.bashrc None) Sample.fresh
  = (Worker.mkResponse 200 (str "success")
       (Some (str "https://cdn.example.com//.bashrc")) None,
     Worker.mkWorld (Worker.entropy Sample.fresh)
       [Worker.mkPut (str "/.bashrc") 2 (str "application/octet-stream")
          (str ".bashrc") Sample.christmas (str "10.0.0.5")]).
Proof. vm_compute. reflexivity. Qed.

(* ================================================================== *)
(** * Admission *)
(* ================================================================== *)

Section Admission.

Import Worker.

Variable printDouble : Z -> jsString.
Variable env : Bindings.

Lemma store_status (now stamp : Date) (req : Request) (b : Body) (w : World) :
  In (status (fst (store printDouble env now stamp req b w)))
     [200; 400; 413; 500]%N.
Proof.
  unfold store.
  destruct (file b) as [[s|f]|]; try (cbn; auto 10; fail).
  destruct (maxFileSize <? size f)%N; [cbn; auto 10|].
  destruct (choosePath _ _ _ _ _ _) as [[path e']|x]; [|cbn; auto 10].
  destruct (BUCKET env _); cbn; auto 10.
Qed.

Lemma upload_judged (k : jsString) (a : Arrival) (w : World) :
  AUTH_KEY env = Some k -> truthy k = true ->
  judged k a (fst (upload printDouble env (now a) (stamp a) (request a) w)).
Proof.
  intros Hk Ht.
  assert (T : forall r, In (status r) [200; 400; 413; 500]%N ->
                        status r <> 403%N /\ status r <> 401%N).
  { intros r Hin. cbn in Hin.
    split; intros E; rewrite E in Hin; intuition discriminate. }
  unfold judged, upload. rewrite Hk, Ht.
  destruct (Authorization (request a)) as [c|].
  - destruct (eqbS c k) eqn:E.
    + apply eqbS_true in E. subst c.
      assert (S : In (status (fst match parseBody (request a) with
                   | Normal b => store printDouble env (now a) (stamp a) (request a) b w
                   | Throw x => (uploadFailed x, w)
                   end)) [200; 400; 413; 500]%N).
      { destruct (parseBody (request a)); [apply store_status | cbn; auto 10]. }
      destruct (T _ S) as [T1 T2].
      split; [exact T1|]. split; [intros _; exact T2 | congruence].
    + cbn. split; [discriminate|]. split; [|reflexivity].
      intros H. injection H as ->. now rewrite eqbS_refl in E.
  - cbn. split; [discriminate|]. split; [discriminate | reflexivity].
Qed.

End Admission.

(** C2, as it holds.  The Worker counts no failure and bans no address:
    with the secret configured, in any sequence of requests, whatever came
    before and whenever, a request with the right credential is never
    answered 401 or 403, a request with another or no credential is
    answered 401, and no answer is ever 403. *)
Theorem no_ban_after_failures (printDouble : Z -> jsString)
    (env : Worker.Bindings) (k : jsString) (arrivals : list Worker.Arrival)
    (w : Worker.World) :
  Worker.AUTH_KEY env = Some k -> truthy k = true ->
  Forall2 (judged k) arrivals (fst (Worker.serve printDouble env arrivals w)).
Proof.
  intros Hk Ht. revert w.
  induction arrivals as [|a rest IH]; intros w; [constructor|].
  cbn [Worker.serve].
  pose proof (@upload_judged printDouble env k a w Hk Ht) as J.
  destruct (Worker.upload printDouble env (Worker.now a) (Worker.stamp a)
              (Worker.request a) w) as [answer w1].
  specialize (IH w1).
  destruct (Worker.serve printDouble env rest w1) as [answers w2].
  constructor; assumption.
Qed.

Lemma no_ban_after_failures_witness :
  Worker.AUTH_KEY (Sample.bindings None) = Some Sample.secret
  /\ truthy Sample.secret = true
  /\ Forall2 (judged Sample.secret) Sample.attempts
       (fst (Worker.serve toString (Sample.bindings None)
               Sample.attempts Sample.fresh)).
Proof.
  split; [reflexivity|]. split; [reflexivity|].
  apply (@no_ban_after_failures toString (Sample.bindings None) Sample.secret
           Sample.attempts Sample.fresh); reflexivity.
Defined.

(** C2, as stated, fails: after three failed attempts from 10.0.0.5 the
    fourth attempt, with the right credential, is not refused as banned;
    it is served, like the fifth an hour later. *)
Lemma fourth_attempt_served :
  map Worker.status
    (fst (Worker.serve toString (Sample.bindings None)
            Sample.attempts Sample.fresh))
  = [401; 401; 401; 200; 200]%N
  /\ nth 3 (map Worker.status
              (fst (Worker.serve toString (Sample.bindings None)
                      Sample.attempts Sample.fresh))) 0%N <> 403%N.
Proof. split; vm_compute; [reflexivity | discriminate]. Qed.

(* ================================================================== *)
(** * The renaming routine *)
(* ================================================================== *)

Section Renaming.

Variable md5 : list N -> jsString.

Lemma sliceTo_length (s : jsString) (k : Z) :
  (0 <= k)%Z -> length (Rename.sliceTo s k) = Nat.min (Z.to_nat k) (length s).
Proof.
  intros H. unfold Rename.sliceTo.
  destruct (Z.ltb_spec k 0); [lia|]. apply length_firstn.
Qed.

Lemma hash_length (f : Rename.file) : (length (Rename.hash md5 f) <= 8)%nat.
Proof.
  unfold Rename.hash. rewrite sliceTo_length by lia.
  change (Z.to_nat 8) with 8%nat. lia.
Qed.

(** With an extension of at most 31 characters the stem keeps its first
    [31 - len(ext)] characters and the name stays within 40. *)
Lemma renamed_within_limit (f : Rename.file) :
  (length (Rename.ext f) <= 31)%nat ->
  Rename.sliceTo (Rename.stem f) (Rename.max_stem f)
    = firstn (31 - length (Rename.ext f)) (Rename.stem f)
  /\ (length (Rename.renamed md5 f) <= 40)%nat.
Proof.
  intros H.
  assert (E : Rename.sliceTo (Rename.stem f) (Rename.max_stem f)
              = firstn (31 - length (Rename.ext f)) (Rename.stem f)).
  { unfold Rename.sliceTo, Rename.max_stem.
    destruct (Z.ltb_spec (40 - Z.of_nat (length (Rename.ext f)) - 9) 0); [lia|].
    f_equal. lia. }
  split; [exact E|].
  unfold Rename.renamed. rewrite E.
  rewrite !length_app, length_firstn.
  pose proof (hash_length f). cbn [length str map String.list_ascii_of_string].
  lia.
Qed.

End Renaming.

(** C3 at a failing input.  For [backup.2024-12-25T09-05-07-snapshot-full]
    the extension has 34 characters, [max_stem] is -3, the slice drops the
    last three characters of the stem, and the name produced has 46
    characters, more than 40. *)
Theorem renamed_exceeds_limit :
  Rename.max_stem Sample.snapshot = (-3)%Z
  /\ Rename.renamed Sample.md5 Sample.snapshot
     = str "bac-d41d8cd9.2024-12-25T09-05-07-snapshot-full"
  /\ length (Rename.renamed Sample.md5 Sample.snapshot) = 46%nat.
Proof. repeat split; vm_compute; reflexivity. Qed.

(* ================================================================== *)
(** * One draw for each match *)
(* ================================================================== *)

Section Draws.

Local Open Scope nat_scope.

Lemma advance_advance (n m : nat) (e : Entropy) :
  advance n (advance m e) = advance (m + n) e.
Proof. unfold advance. cbn [source position]. f_equal. lia. Qed.

Lemma advance_0 (e : Entropy) : advance 0 e = e.
Proof. destruct e as [f p]. unfold advance. cbn [source position]. f_equal. lia. Qed.

(** The bytes of a draw, one by one. *)
Lemma draw_bytes (n i : nat) (e : Entropy) :
  draw n i e
  = map (fun k => (source e (position e + n * i + k) mod 256)%N) (seq 0 n).
Proof. reflexivity. Qed.

Lemma draw_length (n i : nat) (e : Entropy) : length (draw n i e) = n.
Proof. apply window_length. Qed.

Lemma draw_range (n i : nat) (e : Entropy) :
  Forall (fun b => (b < 256)%N) (draw n i e).
Proof. apply window_bytes. Qed.

Lemma generateRandomHex_8 (e : Entropy) :
  generateRandomHex 8 e = Normal (hexOf (window 4 e), advance 4 e).
Proof.
  rewrite generateRandomHex_value by (vm_compute; discriminate).
  change (N.to_nat (ceilHalf 8)) with 4. change (N.to_nat 8) with 8.
  f_equal. f_equal. apply firstn_all2.
  fold (hexOf (window 4 e)). unfold hexOf.
  rewrite hex_length by apply window_bytes.
  rewrite window_length. lia.
Qed.

Lemma generateRandomHex_16 (e : Entropy) :
  generateRandomHex 16 e = Normal (hexOf (window 8 e), advance 8 e).
Proof.
  rewrite generateRandomHex_value by (vm_compute; discriminate).
  change (N.to_nat (ceilHalf 16)) with 8. change (N.to_nat 16) with 16.
  f_equal. f_equal. apply firstn_all2.
  fold (hexOf (window 8 e)). unfold hexOf.
  rewrite hex_length by apply window_bytes.
  rewrite window_length. lia.
Qed.

(** A callback that reads [n] bytes at each call gives match number [i]
    the bytes of draw number [i]. *)
Lemma fill_weave (f : Eff jsString) (n : nat) (g : list N -> jsString) :
  (forall e, f e = Normal (g (window n e), advance n e)) ->
  forall (ps : list piece) (j : nat) (e : Entropy),
    fill f ps (advance (n * j) e)
    = Normal (weave ps (fun i _ _ => g (draw n i e)) j,
              advance (n * (j + hits ps)) e).
Proof.
  intros Hf.
  induction ps as [|[c|b a] ps IH]; intros j e.
  - cbn [fill weave hits]. unfold ret. now rewrite Nat.add_0_r.
  - cbn [fill weave hits]. unfold bind. rewrite IH. reflexivity.
  - cbn [fill weave hits]. unfold bind. rewrite Hf.
    rewrite advance_advance.
    replace (n * j + n) with (n * S j) by lia.
    rewrite IH. unfold ret, draw.
    replace (n * (S j + hits ps)) with (n * (j + S (hits ps))) by lia.
    reflexivity.
Qed.

Lemma replaceAllWith_weave (pat : jsString) (f : Eff jsString) (n : nat)
    (g : list N -> jsString) (s : jsString) (e : Entropy) :
  (forall e, f e = Normal (g (window n e), advance n e)) ->
  replaceAllWith pat f s e
  = Normal (weave (matchAll pat s) (fun i _ _ => g (draw n i e)) 0,
            advance (n * hits (matchAll pat s)) e).
Proof.
  intros Hf. unfold replaceAllWith.
  rewrite <- (advance_0 e) at 1.
  replace 0 with (n * 0) at 1 by lia.
  rewrite (@fill_weave f n g Hf). reflexivity.
Qed.

Lemma app_same_length (A : Type) (a a' r r' : list A) :
  length a = length a' -> a ++ r = a' ++ r' -> a = a' /\ r = r'.
Proof.
  revert a'. induction a as [|x a IH]; intros [|x' a'] L E;
    try discriminate; [now split|].
  injection E as -> E. injection L as L.
  destruct (IH a' L E) as [-> ->]. now split.
Qed.

(** Digits are equal only when the bytes are. *)
Lemma hexOf_injective (bs bs' : list N) :
  Forall (fun b => (b < 256)%N) bs ->
  Forall (fun b => (b < 256)%N) bs' ->
  length bs = length bs' ->
  hexOf bs = hexOf bs' -> bs = bs'.
Proof.
  intros H. revert bs'.
  induction H as [|b bs Hb _ IH]; intros bs' H' L E.
  - destruct bs'; [reflexivity | discriminate].
  - destruct H' as [|b' bs' Hb' H']; [discriminate|].
    unfold hexOf in E. cbn [map concat] in E.
    pose proof (hexByte_length Hb) as L1.
    pose proof (hexByte_length Hb') as L2.
    destruct (app_same_length _ _ _ _ (eq_trans L1 (eq_sym L2)) E) as [E1 E2].
    f_equal.
    + now rewrite <- (hexByte_read_back Hb), E1, hexByte_read_back.
    + apply IH; [exact H' | now injection L | exact E2].
Qed.

End Draws.

(* ================================================================== *)
(** * Template variables do not overlap *)
(* ================================================================== *)

Section Scanning.

Local Open Scope nat_scope.

Lemma startsWith_app (p t : jsString) : startsWith p (p ++ t) = true.
Proof.
  induction p as [|c p IH]; [reflexivity|].
  cbn [app startsWith]. now rewrite N.eqb_refl, IH.
Qed.

Lemma startsWith_inv (p s : jsString) :
  startsWith p s = true -> exists t, s = p ++ t.
Proof.
  revert s. induction p as [|c p IH]; intros s H.
  - now exists s.
  - destruct s as [|x s]; [discriminate|].
    cbn [startsWith] in H. apply andb_true_iff in H as [Hc Hs].
    apply N.eqb_eq in Hc. subst x.
    destruct (IH s Hs) as [t ->]. now exists t.
Qed.

Lemma scan_lit (pat : jsString) (c : codeUnit) (s before : jsString) :
  startsWith pat (c :: s) = false ->
  scan pat 0 before (c :: s) = Lit c :: scan pat 0 (before ++ [c]) s.
Proof. intros H. cbn [scan]. now rewrite H. Qed.

Lemma scan_skip (pat u t before : jsString) :
  scan pat (length u) before (u ++ t) = scan pat 0 (before ++ u) t.
Proof.
  revert before. induction u as [|c u IH]; intros before.
  - cbn [length app]. now rewrite app_nil_r.
  - cbn [length app scan]. rewrite IH. now rewrite <- app_assoc.
Qed.

Lemma scan_hit (pat t before : jsString) :
  pat <> [] ->
  scan pat 0 before (pat ++ t) = Hit before t :: scan pat 0 (before ++ pat) t.
Proof.
  intros Hp. destruct pat as [|c pat]; [contradiction|].
  change ((c :: pat) ++ t) with (c :: pat ++ t).
  cbn [scan].
  change (c :: pat ++ t) with ((c :: pat) ++ t).
  rewrite startsWith_app.
  rewrite skipn_app, skipn_all, Nat.sub_diag. cbn [app skipn].
  replace (length (c :: pat) - 1) with (length pat) by (cbn [length]; lia).
  rewrite scan_skip. now rewrite <- app_assoc.
Qed.

(** Reasoning on a subject along its matches. *)
Lemma scan_cases (pat : jsString) (Q : jsString -> Prop) :
  pat <> [] ->
  Q [] ->
  (forall c s, startsWith pat (c :: s) = false -> Q s -> Q (c :: s)) ->
  (forall t, Q t -> Q (pat ++ t)) ->
  forall s, Q s.
Proof.
  intros Hp Hnil Hlit Hhit.
  assert (G : forall n s, length s <= n -> Q s).
  { induction n as [|n IH]; intros s L.
    - destruct s; [exact Hnil | cbn in L; lia].
    - destruct s as [|c s]; [exact Hnil|].
      destruct (startsWith pat (c :: s)) eqn:E.
      + destruct (startsWith_inv _ _ E) as [t Et]. rewrite Et.
        apply Hhit, IH.
        apply (f_equal (@length _)) in Et. rewrite length_app in Et.
        destruct pat; [contradiction|]. cbn [length] in *. lia.
      + apply Hlit; [exact E|]. apply IH. cbn [length] in L. lia. }
  intros s. now apply (G (length s)).
Qed.

Lemma weave_lits (u : jsString) (ps : list piece)
    (v : nat -> jsString -> jsString -> jsString) (j : nat) :
  weave (map Lit u ++ ps) v j = u ++ weave ps v j.
Proof. induction u as [|c u IH]; [reflexivity|]. cbn. now rewrite IH. Qed.

Lemma expand_weave (pat r : jsString) (ps : list piece) (j : nat) :
  flat_map (expand pat r) ps
  = weave ps (fun _ before after => getSubstitution pat before after r) j.
Proof.
  revert j. induction ps as [|[c|b a] ps IH]; intros j; [reflexivity| |].
  - cbn [flat_map expand weave app]. now rewrite (IH j).
  - cbn [flat_map expand weave]. now rewrite (IH (S j)).
Qed.

Lemma countOcc_app_r (pat u s : jsString) :
  countOcc pat s <= countOcc pat (u ++ s).
Proof.
  induction u as [|c u IH]; [reflexivity|].
  cbn [app countOcc]. lia.
Qed.

Lemma countOcc_absent (pat s : jsString) :
  countOcc pat s = 0 -> occurs pat s = false.
Proof.
  induction s as [|c s IH]; cbn [countOcc occurs].
  - destruct (startsWith pat []); [discriminate | reflexivity].
  - destruct (startsWith pat (c :: s)); [discriminate|].
    cbn. intros H. now apply IH.
Qed.

End Scanning.

Section Placeholders.

Local Open Scope nat_scope.

Lemma placeholder_nonempty (name : jsString) : placeholder name <> [].
Proof. discriminate. Qed.

Lemma placeholder_head (name : jsString) (c : codeUnit) (s : jsString) :
  notOpening c -> startsWith (placeholder name) (c :: s) = false.
Proof.
  intros H. unfold placeholder. cbn [startsWith].
  rewrite N.eqb_sym. unfold notOpening in H. now rewrite H.
Qed.

Lemma placeholder_tail (name : jsString) :
  plain name -> Forall notOpening (name ++ [ch "}"]).
Proof.
  intros H. apply Forall_app. split.
  - eapply Forall_impl; [|exact H].
    intros c Hc. unfold isBrace in Hc.
    now apply orb_false_iff in Hc as [Hc _].
  - constructor; [reflexivity | constructor].
Qed.

Lemma names_agree (a p t t' : jsString) :
  plain a -> plain p ->
  a ++ ch "}" :: t = p ++ ch "}" :: t' -> a = p.
Proof.
  intros Ha. revert p.
  induction Ha as [|x a Hx _ IH]; intros p Hp E.
  - destruct Hp as [|y p Hy _]; [reflexivity|].
    cbn [app] in E. injection E as <- _. discriminate.
  - destruct Hp as [|y p Hy Hp].
    + cbn [app] in E. injection E as -> _. discriminate.
    + cbn [app] in E. injection E as -> E. f_equal. now apply IH.
Qed.

(** Two different variables never match at the same place. *)
Lemma placeholders_apart (a p s : jsString) :
  plain a -> plain p -> a <> p ->
  startsWith (placeholder a) s = true ->
  startsWith (placeholder p) s = false.
Proof.
  intros Ha Hp Hne H.
  destruct (startsWith (placeholder p) s) eqn:E; [|reflexivity].
  apply startsWith_inv in H as [t Ht].
  apply startsWith_inv in E as [t' Et].
  exfalso. apply Hne. rewrite Ht in Et. unfold placeholder in Et.
  cbn [app] in Et. injection Et as Et.
  rewrite <- !app_assoc in Et. cbn [app] in Et.
  eapply names_agree; eassumption.
Qed.

Section Pair.

Variables a p : jsString.
Hypothesis Ha : plain a.
Hypothesis Hp : plain p.

Lemma scan_run (u t before : jsString) :
  Forall notOpening u ->
  scan (placeholder a) 0 before (u ++ t)
  = map Lit u ++ scan (placeholder a) 0 (before ++ u) t.
Proof.
  intros H. revert before.
  induction H as [|c u Hc _ IH]; intros before.
  - cbn [app map]. now rewrite app_nil_r.
  - cbn [app map]. rewrite scan_lit by now apply placeholder_head.
    rewrite IH. now rewrite <- app_assoc.
Qed.

Lemma countOcc_run (u t : jsString) :
  Forall notOpening u ->
  countOcc (placeholder p) (u ++ t) = countOcc (placeholder p) t.
Proof.
  induction 1 as [|c u Hc _ IH]; [reflexivity|].
  cbn [app countOcc]. rewrite placeholder_head by exact Hc.
  now rewrite IH.
Qed.

Lemma countOcc_self (t : jsString) :
  countOcc (placeholder p) (placeholder p ++ t)
  = S (countOcc (placeholder p) t).
Proof.
  pose proof (startsWith_app (placeholder p) t) as E.
  change (placeholder p ++ t) with (ch "{" :: (p ++ [ch "}"]) ++ t) in E |- *.
  cbn [countOcc]. rewrite E.
  now rewrite countOcc_run by exact (placeholder_tail Hp).
Qed.

(** The matches of a variable are all its occurrences. *)
Lemma hits_countOcc (s before : jsString) :
  hits (scan (placeholder p) 0 before s) = countOcc (placeholder p) s.
Proof.
  revert before.
  apply (scan_cases (pat := placeholder p)) with (s := s);
    [apply placeholder_nonempty | reflexivity | |].
  - intros c s' E IH before.
    rewrite scan_lit by exact E. cbn [hits countOcc].
    now rewrite E, IH.
  - intros t IH before.
    rewrite scan_hit by apply placeholder_nonempty.
    cbn [hits]. now rewrite IH, countOcc_self.
Qed.

Hypothesis Hne : a <> p.

Lemma scan_over_other (t before : jsString) :
  scan (placeholder a) 0 before (placeholder p ++ t)
  = map Lit (placeholder p) ++ scan (placeholder a) 0 (before ++ placeholder p) t.
Proof.
  assert (E : startsWith (placeholder a) (placeholder p ++ t) = false).
  { apply placeholders_apart with (a := p); auto using startsWith_app. }
  change (placeholder p ++ t) with (ch "{" :: (p ++ [ch "}"]) ++ t) in E |- *.
  change (map Lit (placeholder p))
    with (Lit (ch "{") :: map Lit (p ++ [ch "}"])).
  change (before ++ placeholder p)
    with (before ++ [ch "{"] ++ (p ++ [ch "}"])).
  rewrite scan_lit by exact E.
  rewrite scan_run by exact (placeholder_tail Hp).
  now rewrite <- app_assoc.
Qed.

Lemma countOcc_over_other (t : jsString) :
  countOcc (placeholder p) (placeholder a ++ t) = countOcc (placeholder p) t.
Proof.
  assert (E : startsWith (placeholder p) (placeholder a ++ t) = false).
  { apply placeholders_apart with (a := a); auto using startsWith_app. }
  change (placeholder a ++ t) with (ch "{" :: (a ++ [ch "}"]) ++ t) in E |- *.
  cbn [countOcc]. rewrite E.
  now rewrite countOcc_run by exact (placeholder_tail Ha).
Qed.

Variable v : nat -> jsString -> jsString -> jsString.

Lemma startsWith_woven (s before : jsString) (j : nat) :
  startsWith (placeholder p) s = true ->
  startsWith (placeholder p) (weave (scan (placeholder a) 0 before s) v j) = true.
Proof.
  intros H. apply startsWith_inv in H as [t ->].
  rewrite scan_over_other, weave_lits. apply startsWith_app.
Qed.

(** Replacing the matches of one variable keeps every occurrence of
    another. *)
Lemma countOcc_woven (s before : jsString) (j : nat) :
  countOcc (placeholder p) s
  <= countOcc (placeholder p) (weave (scan (placeholder a) 0 before s) v j).
Proof.
  revert before j.
  apply (scan_cases (pat := placeholder a)) with (s := s);
    [apply placeholder_nonempty | | |].
  - intros before j. cbn. lia.
  - intros c s' E IH before j.
    rewrite scan_lit by exact E. cbn [weave].
    pose proof (@startsWith_woven (c :: s') before j) as W.
    rewrite scan_lit in W by exact E. cbn [weave] in W.
    cbn [countOcc].
    specialize (IH (before ++ [c]) j).
    destruct (startsWith (placeholder p) (c :: s')).
    + rewrite W by reflexivity. lia.
    + lia.
  - intros t IH before j.
    rewrite scan_hit by apply placeholder_nonempty.
    cbn [weave]. rewrite countOcc_over_other.
    etransitivity; [apply IH | apply countOcc_app_r].
Qed.

End Pair.

Lemma countOcc_replaceAll (a p r s : jsString) :
  plain a -> plain p -> a <> p ->
  countOcc (placeholder p) s
  <= countOcc (placeholder p) (replaceAll (placeholder a) r s).
Proof.
  intros Ha Hp Hne. unfold replaceAll, matchAll.
  rewrite (expand_weave _ _ _ 0).
  now apply countOcc_woven.
Qed.

End Placeholders.

Section RandomVariables.

Local Open Scope nat_scope.

Variable printDouble : Z -> jsString.
Variable now : Date.
Variables filename format : jsString.

(** Every occurrence of a random variable in the template is still there
    when the clock and file name variables have been replaced. *)
Lemma countOcc_replaceNamed (p : jsString) :
  plain p -> ~ In p namedVariables ->
  countOcc (placeholder p) format
  <= countOcc (placeholder p) (replaceNamed printDouble now filename format).
Proof.
  intros Hp Hn. unfold replaceNamed.
  change (str "{year}") with (placeholder (str "year")).
  change (str "{month}") with (placeholder (str "month")).
  change (str "{day}") with (placeholder (str "day")).
  change (str "{date}") with (placeholder (str "date")).
  change (str "{time}") with (placeholder (str "time")).
  change (str "{timestamp}") with (placeholder (str "timestamp")).
  change (str "{timestamp_nano}") with (placeholder (str "timestamp_nano")).
  change (str "{originname}") with (placeholder (str "originname")).
  change (str "{originname_without_ext}")
    with (placeholder (str "originname_without_ext")).
  change (str "{ext}") with (placeholder (str "ext")).
  repeat lazymatch goal with
  | |- _ <= countOcc _ (replaceAll (placeholder ?a) _ ?s) =>
      apply Nat.le_trans with (countOcc (placeholder p) s);
        [| apply countOcc_replaceAll;
           [ repeat constructor
           | exact Hp
           | intros E; apply Hn; rewrite <- E; cbn [namedVariables In]; auto 12 ] ]
  end.
  reflexivity.
Qed.

End RandomVariables.

(** C4.  In every template each occurrence of [{randomkey8}] and of
    [{randomkey16}] is replaced, and each replacement is made with a draw
    of its own: match number [i] receives the hexadecimal digits of draw
    number [i], read from a part of the random source that no other draw
    reads.  Two replacements of the same variable are therefore equal only
    when their two draws deliver the same bytes. *)
Theorem random_variables_fresh (printDouble : Z -> jsString) (now : Date)
    (filename format : jsString) (e : Entropy) :
  let p := replaceNamed printDouble now filename format in
  let k8 := hits (matchAll (str "{randomkey8}") p) in
  let p8 := weave (matchAll (str "{randomkey8}") p)
              (fun i _ _ => hexOf (draw 4 i e)) 0 in
  let e8 := advance (4 * k8) e in
  let k16 := hits (matchAll (str "{randomkey16}") p8) in
  let p16 := weave (matchAll (str "{randomkey16}") p8)
               (fun i _ _ => hexOf (draw 8 i e8)) 0 in
  let e16 := advance (8 * k16) e8 in
  let ku := hits (matchAll (str "{uuid}") p16) in
  (countOcc (str "{randomkey8}") format <= k8)%nat
  /\ (countOcc (str "{randomkey16}") format <= k16)%nat
  /\ parsePath printDouble now filename format e
     = Normal (weave (matchAll (str "{uuid}") p16)
                 (fun i _ _ => uuidOfBytes (draw 16 i e16)) 0,
               advance (16 * ku) e16)
  /\ (forall n i (e0 : Entropy),
        draw n i e0
        = map (fun t => (source e0 (position e0 + n * i + t) mod 256)%N) (seq 0 n))
  /\ (forall i j, hexOf (draw 4 i e) = hexOf (draw 4 j e)
                  <-> draw 4 i e = draw 4 j e)
  /\ (forall i j, hexOf (draw 8 i e8) = hexOf (draw 8 j e8)
                  <-> draw 8 i e8 = draw 8 j e8).
Proof.
  intros p k8 p8 e8 k16 p16 e16 ku.
  assert (P8 : plain (str "randomkey8")) by repeat constructor.
  assert (P16 : plain (str "randomkey16")) by repeat constructor.
  split; [|split; [|split; [|split; [exact draw_bytes|split]]]].
  - unfold k8, matchAll.
    change (str "{randomkey8}") with (placeholder (str "randomkey8")).
    rewrite hits_countOcc by exact P8.
    apply countOcc_replaceNamed; [exact P8|].
    cbn [namedVariables In]. intros H.
    repeat (destruct H as [H|H]; [vm_compute in H; discriminate|]). exact H.
  - unfold k16, matchAll.
    change (str "{randomkey16}") with (placeholder (str "randomkey16")).
    rewrite hits_countOcc by exact P16.
    apply Nat.le_trans with (countOcc (placeholder (str "randomkey16")) p).
    + apply countOcc_replaceNamed; [exact P16|].
      cbn [namedVariables In]. intros H.
      repeat (destruct H as [H|H]; [vm_compute in H; discriminate|]). exact H.
    + unfold p8, matchAll.
      change (str "{randomkey8}") with (placeholder (str "randomkey8")).
      apply countOcc_woven; [exact P8 | exact P16 |].
      intros H. vm_compute in H. discriminate.
  - unfold parsePath, replaceRandom, bind. fold p.
    rewrite (@replaceAllWith_weave (str "{randomkey8}") (generateRandomHex 8)
               4 hexOf p e generateRandomHex_8).
    fold p8. fold k8. fold e8.
    rewrite (@replaceAllWith_weave (str "{randomkey16}") (generateRandomHex 16)
               8 hexOf p8 e8 generateRandomHex_16).
    fold p16. fold k16. fold e16.
    rewrite (@replaceAllWith_weave (str "{uuid}") randomUUID
               16 uuidOfBytes p16 e16 (fun e0 => eq_refl)).
    reflexivity.
  - intros i j. split; [|now intros ->].
    apply hexOf_injective; try apply draw_range.
    now rewrite !draw_length.
  - intros i j. split; [|now intros ->].
    apply hexOf_injective; try apply draw_range.
    now rewrite !draw_length.
Qed.

(** C4 on a template with two [{randomkey8}]: the two values come from the
    first and the second four bytes of the source, and differ as these
    do. *)
Lemma random_variables_fresh_witness :
  parsePath toString Sample.christmas (str "photo.png")
    (str "{randomkey8}-{randomkey8}{ext}") Sample.counting
  = Normal (str "00010203-04050607.png", advance 8 Sample.counting)
  /\ hexOf (draw 4 0 Sample.counting) <> hexOf (draw 4 1 Sample.counting).
Proof.
  destruct (@random_variables_fresh toString Sample.christmas (str "photo.png")
              (str "{randomkey8}-{randomkey8}{ext}") Sample.counting)
    as (_ & _ & E & _ & I & _).
  split.
  - rewrite E. vm_compute. reflexivity.
  - intros H. apply I in H. vm_compute in H. discriminate.
Defined.

(** The first scenario of the specification: [photo.png] uploaded on
    25 December 2024 with the default path format. *)
Example default_format_scenario :
  keyOf (parsePath toString Sample.christmas (str "photo.png")
           Worker.defaultFormat Sample.counting)
  = Some (str "2024/12/25/0001020304050607.png").
Proof. vm_compute. reflexivity. Qed.

(** The second scenario of the specification: the stem is cut so that the
    name has exactly 40 characters. *)
Example long_name_scenario :
  Rename.renamed Sample.md5 Sample.longName
  = str "a-very-long-original-file-n-d41d8cd9.pdf"
  /\ length (Rename.renamed Sample.md5 Sample.longName) = 40%nat.
Proof. split; vm_compute; reflexivity. Qed.

(* ================================================================== *)
(** * Templates whose braces open file name variables *)
(* ================================================================== *)

Section FileTemplates.

Lemma inert_plain (r matched before after : jsString) :
  inert r -> getSubstitution matched before after r = r.
Proof.
  intros H. apply getSubstitution_plain.
  eapply Forall_impl; [|exact H]. now intros c [_ Hc].
Qed.

Lemma opensOnly_insert (names : list jsString) (r t : jsString) :
  inert r -> opensOnly names t -> opensOnly names (r ++ t).
Proof.
  induction 1 as [|c r [Hc _] _ IH]; intros Ht; [exact Ht|].
  cbn [app]. apply opens_char; [exact Hc | now apply IH].
Qed.

Lemma flat_map_lits (pat r u : jsString) (ps : list piece) :
  flat_map (expand pat r) (map Lit u ++ ps) = u ++ flat_map (expand pat r) ps.
Proof. induction u as [|c u IH]; [reflexivity|]. cbn. now rewrite IH. Qed.

(** Replacing one variable by an inert text leaves the braces of the
    other variables only. *)
Lemma replaceAll_opens (a r : jsString) (names rest : list jsString)
    (s : jsString) :
  plain a -> Forall plain names -> inert r ->
  (forall b, In b names -> b = a \/ In b rest) ->
  opensOnly names s ->
  opensOnly rest (replaceAll (placeholder a) r s).
Proof.
  intros Ha Hnames Hr Hrest Hs.
  unfold replaceAll, matchAll. generalize (@nil codeUnit) as before.
  induction Hs as [|c t Hc _ IH|b t Hb _ IH]; intros before.
  - constructor.
  - rewrite scan_lit by now apply placeholder_head.
    cbn [flat_map expand app]. apply opens_char; [exact Hc | apply IH].
  - destruct (list_eq_dec N.eq_dec b a) as [->|Hne].
    + rewrite scan_hit by apply placeholder_nonempty.
      cbn [flat_map expand]. rewrite inert_plain by exact Hr.
      apply opensOnly_insert; [exact Hr | apply IH].
    + assert (Pb : plain b)
        by exact (proj1 (Forall_forall _ _) Hnames b Hb).
      rewrite scan_over_other by auto.
      rewrite flat_map_lits.
      apply opens_var; [|apply IH].
      destruct (Hrest b Hb) as [E|Hin]; [contradiction | exact Hin].
Qed.

Lemma opensOnly_none (pat_name s : jsString) :
  opensOnly [] s -> occurs (placeholder pat_name) s = false.
Proof.
  induction 1 as [|c t Hc _ IH|b t Hb _ _]; [reflexivity| |destruct Hb].
  cbn [occurs]. now rewrite placeholder_head, IH.
Qed.

Lemma safe_inert (s : jsString) :
  Forall (fun c => isSafeChar c = true) s -> inert s.
Proof.
  intros H. eapply Forall_impl; [|exact H].
  intros c Hc. split; [|now apply safe_not_dollar].
  unfold notOpening. destruct (N.eqb_spec c (ch "{")); [subst|reflexivity].
  vm_compute in Hc. discriminate.
Qed.

Lemma Forall_skipn (A : Type) (P : A -> Prop) (n : nat) (l : list A) :
  Forall P l -> Forall P (skipn n l).
Proof.
  intros H. rewrite <- (firstn_skipn n l) in H.
  now apply Forall_app in H.
Qed.

Lemma originNameWithoutExt_safe (filename : jsString) :
  Forall (fun c => isSafeChar c = true) (originNameWithoutExt filename).
Proof.
  unfold originNameWithoutExt.
  destruct (extIndex filename =? -1)%Z; [apply replaceUnsafe_safe|].
  unfold substring2. apply Forall_firstn, Forall_skipn, replaceUnsafe_safe.
Qed.

(** With no time variable in the template, braces that open file name
    variables only, and an inert extension, no random variable is left
    when the named variables have been replaced. *)
Lemma replaceNamed_free (printDouble : Z -> jsString) (now : Date)
    (filename format : jsString) :
  free timePlaceholders format = true ->
  opensOnly fileVariables format ->
  inert (ext filename) ->
  free randomPlaceholders (replaceNamed printDouble now filename format) = true.
Proof.
  intros Ht Hf He.
  unfold free, timePlaceholders in Ht. cbn [forallb] in Ht.
  repeat (apply andb_true_iff in Ht as [?H Ht]).
  repeat match goal with
         | H : negb _ = true |- _ => apply negb_true_iff in H
         end.
  unfold replaceNamed. cbv zeta.
  rewrite (@replaceAll_absent (str "{year}") _ format) by assumption.
  rewrite (@replaceAll_absent (str "{month}") _ format) by assumption.
  rewrite (@replaceAll_absent (str "{day}") _ format) by assumption.
  rewrite (@replaceAll_absent (str "{date}") _ format) by assumption.
  rewrite (@replaceAll_absent (str "{time}") _ format) by assumption.
  rewrite (@replaceAll_absent (str "{timestamp}") _ format) by assumption.
  rewrite (@replaceAll_absent (str "{timestamp_nano}") _ format) by assumption.
  assert (O : opensOnly []
                (replaceAll (str "{ext}") (ext filename)
                   (replaceAll (str "{originname_without_ext}")
                      (originNameWithoutExt filename)
                      (replaceAll (str "{originname}") (originName filename)
                         format)))).
  { change (str "{ext}") with (placeholder (str "ext")).
    change (str "{originname_without_ext}")
      with (placeholder (str "originname_without_ext")).
    change (str "{originname}") with (placeholder (str "originname")).
    apply replaceAll_opens with (names := [str "ext"]);
      [repeat constructor | repeat constructor | exact He
       | cbn [In]; intuition |].
    apply replaceAll_opens with (names := [str "originname_without_ext"; str "ext"]);
      [repeat constructor | repeat constructor
       | apply safe_inert, originNameWithoutExt_safe
       | cbn [In]; intuition |].
    apply replaceAll_opens with (names := fileVariables);
      [repeat constructor | repeat constructor
       | apply safe_inert, replaceUnsafe_safe
       | cbn [fileVariables In]; intuition | exact Hf]. }
  unfold free, randomPlaceholders. cbn [forallb].
  change (str "{randomkey8}") with (placeholder (str "randomkey8")).
  change (str "{randomkey16}") with (placeholder (str "randomkey16")).
  change (str "{uuid}") with (placeholder (str "uuid")).
  now rewrite !(opensOnly_none _ O).
Qed.

End FileTemplates.

(* ================================================================== *)
(** * Repeated resolution of a path *)
(* ================================================================== *)

(** C8, as it holds.  At a fixed clock, for every file name and template:
    when the path obtained after the time and file name variables have been
    replaced holds none of [{randomkey8}], [{randomkey16}], [{uuid}],
    resolution returns that path whatever the random source delivers, so
    two evaluations yield the identical key.  This is the case in
    particular when the template holds no time variable, each of its
    opening braces opens [{originname}], [{originname_without_ext}] or
    [{ext}], and the extension of the file name holds neither an opening
    brace nor a dollar sign. *)
Theorem parsePath_repeatable (printDouble : Z -> jsString) (now : Date)
    (filename format : jsString) :
  (free randomPlaceholders (replaceNamed printDouble now filename format) = true ->
   forall e1 e2 : Entropy,
     keyOf (parsePath printDouble now filename format e1)
       = Some (replaceNamed printDouble now filename format)
     /\ keyOf (parsePath printDouble now filename format e1)
        = keyOf (parsePath printDouble now filename format e2))
  /\ (free timePlaceholders format = true ->
      opensOnly fileVariables format ->
      inert (ext filename) ->
      free randomPlaceholders (replaceNamed printDouble now filename format) = true).
Proof.
  split.
  - intros H e1 e2. unfold parsePath.
    now rewrite !replaceRandom_absent by exact H.
  - apply replaceNamed_free.
Qed.

Lemma parsePath_repeatable_witness :
  free timePlaceholders (str "img/{originname}") = true
  /\ opensOnly fileVariables (str "img/{originname}")
  /\ inert (ext (str "photo.png"))
  /\ keyOf (parsePath toString Sample.christmas
              (str "photo.png") (str "img/{originname}") Sample.zeros)
     = Some (str "img/photo.png")
  /\ keyOf (parsePath toString Sample.christmas
              (str "photo.png") (str "img/{originname}") Sample.zeros)
     = keyOf (parsePath toString Sample.christmas
                (str "photo.png") (str "img/{originname}") Sample.ones).
Proof.
  assert (T : free timePlaceholders (str "img/{originname}") = true)
    by (vm_compute; reflexivity).
  assert (O : opensOnly fileVariables (str "img/{originname}")).
  { change (str "img/{originname}")
      with (ch "i" :: ch "m" :: ch "g" :: ch "/"
              :: placeholder (str "originname") ++ []).
    do 4 (apply opens_char; [reflexivity|]).
    apply opens_var; [left; reflexivity | constructor]. }
  assert (I : inert (ext (str "photo.png")))
    by (vm_compute; repeat constructor).
  destruct (@parsePath_repeatable toString Sample.christmas
              (str "photo.png") (str "img/{originname}")) as [P1 P2].
  destruct (P1 (P2 T O I) Sample.zeros Sample.ones) as [K1 K2].
  split; [exact T|]. split; [exact O|]. split; [exact I|].
  split; [|exact K2].
  rewrite K1. vm_compute. reflexivity.
Defined.

(** C8, as stated, fails: a template with no random and no time-dependent
    placeholder can still resolve to different keys, because replacing
    [{originname}] (or [{originname_without_ext}], [{ext}]) can put a random
    placeholder together, which is then replaced. *)
Lemma parsePath_not_repeatable :
  free (randomPlaceholders ++ timePlaceholders) (str "{{originname}key8}") = true
  /\ keyOf (parsePath toString Sample.christmas
              (str "random") (str "{{originname}key8}") Sample.zeros)
     = Some (str "00000000")
  /\ keyOf (parsePath toString Sample.christmas
              (str "random") (str "{{originname}key8}") Sample.ones)
     = Some (str "ffffffff")
  /\ keyOf (parsePath toString Sample.christmas
              (str "random") (str "{{originname}key8}") Sample.zeros)
     <> keyOf (parsePath toString Sample.christmas
                 (str "random") (str "{{originname}key8}") Sample.ones).
Proof. repeat split; vm_compute; try reflexivity; discriminate. Qed.

(* ================================================================== *)
(** * Printed numbers *)
(* ================================================================== *)

Section Printed.

Local Open Scope nat_scope.

Lemma uint_digits (u : Decimal.uint) :
  Forall (fun c => isDigit c = true) (str (DecimalString.NilEmpty.string_of_uint u)).
Proof.
  induction u; cbn [DecimalString.NilEmpty.string_of_uint str
                    String.list_ascii_of_string map];
    constructor; try reflexivity; assumption.
Qed.

Lemma toString_digits (z : Z) :
  Forall (fun c => isDigitOrMinus c = true) (toString z).
Proof.
  assert (D : forall u, Forall (fun c => isDigitOrMinus c = true)
                          (str (DecimalString.NilEmpty.string_of_uint u))).
  { intros u. eapply Forall_impl; [|apply uint_digits].
    intros c Hc. unfold isDigitOrMinus. now rewrite Hc. }
  unfold toString. destruct z as [|p|p]; cbn [Z.to_int DecimalString.NilEmpty.string_of_int].
  - apply D.
  - apply D.
  - cbn [str String.list_ascii_of_string map]. constructor; [reflexivity|]. apply D.
Qed.

(** A printed integer is never the empty string. *)
Lemma toString_nonempty (z : Z) : toString z <> [].
Proof.
  unfold toString. destruct z as [|p|p]; cbn [Z.to_int DecimalString.NilEmpty.string_of_int].
  - discriminate.
  - pose proof (DecimalPos.Unsigned.to_uint_nonnil p) as H.
    destruct (Pos.to_uint p); [contradiction | discriminate ..].
  - discriminate.
Qed.

Lemma repeatTo_Forall (P : codeUnit -> Prop) (fill : jsString) (n : nat) :
  Forall P fill -> forall cur, Forall P cur -> Forall P (repeatTo fill cur n).
Proof.
  intros Hf. induction n as [|n IH]; intros cur Hc; [constructor|].
  cbn [repeatTo]. destruct Hc as [|c cur Hc Hcur].
  - destruct Hf as [|c fill' Hc Hfill'] eqn:E; [constructor|].
    constructor; [exact Hc|]. apply IH. exact Hfill'.
  - constructor; [exact Hc|]. now apply IH.
Qed.

Lemma padStart_Forall (P : codeUnit -> Prop) (n : nat) (fill s : jsString) :
  Forall P fill -> Forall P s -> Forall P (padStart n fill s).
Proof.
  intros Hf Hs. unfold padStart. destruct (n <=? length s); [exact Hs|].
  apply Forall_app. split; [now apply repeatTo_Forall | exact Hs].
Qed.

Lemma digits_inert (s : jsString) :
  Forall (fun c => isDigitOrMinus c = true) s -> inert s.
Proof.
  intros H. eapply Forall_impl; [|exact H].
  intros c Hc. unfold notOpening.
  split.
  - destruct (N.eqb_spec c (ch "{")); [subst; vm_compute in Hc; discriminate | reflexivity].
  - destruct (N.eqb_spec c (ch "$")); [subst; vm_compute in Hc; discriminate | reflexivity].
Qed.

Lemma padded_digits (z : Z) :
  Forall (fun c => isDigitOrMinus c = true) (padStart 2 (str "0") (toString z)).
Proof.
  apply padStart_Forall; [|apply toString_digits].
  constructor; [reflexivity | constructor].
Qed.

Lemma clock_inert (now : Date) :
  inert (year now) /\ inert (month now) /\ inert (day now)
  /\ inert (dateStr now) /\ inert (timeStr now) /\ inert (timestamp now).
Proof.
  assert (Y : Forall (fun c => isDigitOrMinus c = true) (year now))
    by apply toString_digits.
  assert (M : Forall (fun c => isDigitOrMinus c = true) (month now))
    by apply padded_digits.
  assert (D : Forall (fun c => isDigitOrMinus c = true) (day now))
    by apply padded_digits.
  repeat split; apply digits_inert; try assumption.
  - unfold dateStr. now rewrite !Forall_app.
  - unfold timeStr. rewrite !Forall_app.
    repeat split; try assumption; apply padded_digits.
  - apply toString_digits.
Qed.

End Printed.

(* ================================================================== *)
(** * Templates read token by token *)
(* ================================================================== *)

Section Tokens.

Local Open Scope nat_scope.

Lemma render_app (x y : list token) : render (x ++ y) = render x ++ render y.
Proof. unfold render. apply flat_map_app. Qed.

Lemma render_texts (u : jsString) : render (map Text u) = u.
Proof. induction u as [|c u IH]; [reflexivity|]. cbn. now f_equal. Qed.

Lemma substitute_app (a r : jsString) (x y : list token) :
  substitute a r (x ++ y) = substitute a r x ++ substitute a r y.
Proof. unfold substitute. apply flat_map_app. Qed.

Lemma substitute_texts (a r u : jsString) :
  substitute a r (map Text u) = map Text u.
Proof. induction u as [|c u IH]; [reflexivity|]. cbn. now f_equal. Qed.

Lemma substitute_var (a r b : jsString) :
  substitute a r [Var b] = if eqbS b a then map Text r else [Var b].
Proof. cbn. apply app_nil_r. Qed.

Lemma inert_notOpening (r : jsString) : inert r -> Forall notOpening r.
Proof. intros H. eapply Forall_impl; [|exact H]. now intros c [Hc _]. Qed.

Lemma wellFormed_texts (r : jsString) : inert r -> wellFormed (map Text r).
Proof.
  intros H. apply inert_notOpening in H.
  induction H as [|c r Hc _ IH]; constructor; assumption.
Qed.

(** One replacement of [parsePath] on a well-formed template acts token
    by token. *)
Lemma replaceAll_tokens (a r : jsString) (ts : list token) :
  plain a -> wellFormed ts -> (In (Var a) ts -> inert r) ->
  replaceAll (placeholder a) r (render ts) = render (substitute a r ts)
  /\ wellFormed (substitute a r ts)
  /\ (forall b, In (Var b) (substitute a r ts) -> In (Var b) ts).
Proof.
  intros Ha Hts Hr.
  assert (E : forall before,
             flat_map (expand (placeholder a) r)
               (scan (placeholder a) 0 before (render ts))
             = render (substitute a r ts)).
  { induction Hts as [|[c|b] ts Ht _ IH]; intros before.
    - reflexivity.
    - change (render (Text c :: ts)) with (c :: render ts).
      change (substitute a r (Text c :: ts)) with (Text c :: substitute a r ts).
      change (render (Text c :: substitute a r ts))
        with (c :: render (substitute a r ts)).
      rewrite scan_lit by now apply placeholder_head.
      cbn [flat_map expand app]. f_equal.
      apply IH. intros H. apply Hr. now right.
    - change (render (Var b :: ts)) with (placeholder b ++ render ts).
      change (substitute a r (Var b :: ts))
        with ((if eqbS b a then map Text r else [Var b]) ++ substitute a r ts).
      rewrite render_app.
      destruct (eqbS b a) eqn:Eb.
      + apply eqbS_true in Eb. subst b.
        rewrite scan_hit by apply placeholder_nonempty.
        cbn [flat_map expand].
        rewrite inert_plain by (apply Hr; now left).
        rewrite render_texts. f_equal.
        apply IH. intros H. apply Hr. now right.
      + assert (Hne : a <> b).
        { intros ->. now rewrite eqbS_refl in Eb. }
        rewrite scan_over_other by assumption.
        rewrite flat_map_lits.
        change (render [Var b]) with (placeholder b ++ []).
        rewrite app_nil_r. f_equal.
        apply IH. intros H. apply Hr. now right. }
  split; [apply E|]. split.
  - clear E. induction Hts as [|[c|b] ts Ht _ IH].
    + constructor.
    + cbn. constructor; [exact Ht|]. apply IH. intros H. apply Hr. now right.
    + change (substitute a r (Var b :: ts))
        with ((if eqbS b a then map Text r else [Var b]) ++ substitute a r ts).
      apply Forall_app. split.
      * destruct (eqbS b a) eqn:Eb.
        -- apply eqbS_true in Eb. subst b.
           apply wellFormed_texts, Hr. now left.
        -- constructor; [exact Ht | constructor].
      * apply IH. intros H. apply Hr. now right.
  - clear E Hr. intros b. induction ts as [|[c|b'] ts IH].
    + intros [].
    + cbn. intros [H|H]; [discriminate | right; apply IH; [|exact H]].
      now inversion Hts.
    + change (substitute a r (Var b' :: ts))
        with ((if eqbS b' a then map Text r else [Var b']) ++ substitute a r ts).
      intros H. apply in_app_or in H as [H|H].
      * destruct (eqbS b' a).
        -- apply in_map_iff in H as (c & Hc & _). discriminate.
        -- destruct H as [H|[]]. now left.
      * right. apply IH; [now inversion Hts | exact H].
Qed.

Section Values.

Variable printDouble : Z -> jsString.
Variable now : Date.
Variable filename : jsString.

Lemma substituteNamed_app (x y : list token) :
  substituteNamed printDouble now filename (x ++ y)
  = substituteNamed printDouble now filename x
    ++ substituteNamed printDouble now filename y.
Proof. unfold substituteNamed. cbv zeta. now rewrite !substitute_app. Qed.

Lemma substituteNamed_token (t : token) :
  render (substituteNamed printDouble now filename [t])
  = instantiateToken printDouble now filename t.
Proof.
  destruct t as [c|b]; [reflexivity|].
  unfold substituteNamed, instantiateToken, namedValue. cbv zeta.
  repeat (rewrite substitute_var;
          destruct (eqbS b _);
          [rewrite ?substitute_texts; apply render_texts|]).
  change (render [Var b]) with (placeholder b ++ []). apply app_nil_r.
Qed.

Lemma substituteNamed_instantiate (ts : list token) :
  render (substituteNamed printDouble now filename ts)
  = instantiate printDouble now filename ts.
Proof.
  induction ts as [|t ts IH]; [reflexivity|].
  change (t :: ts) with ([t] ++ ts).
  rewrite substituteNamed_app, render_app, substituteNamed_token, IH.
  reflexivity.
Qed.

End Values.

End Tokens.

(** The ten replacements on a rendered template, token by token. *)
Lemma replaceNamed_render (printDouble : Z -> jsString) (now : Date)
    (filename : jsString) (ts : list token) :
  wellFormed ts ->
  (In (Var (str "timestamp_nano")) ts -> inert (timestampNano printDouble now)) ->
  (In (Var (str "ext")) ts -> inert (ext filename)) ->
  replaceNamed printDouble now filename (render ts)
  = instantiate printDouble now filename ts.
Proof.
  intros W Hn He.
  destruct (clock_inert now) as (Iy & Im & Id & Idate & Itime & Its).
  rewrite <- substituteNamed_instantiate.
  unfold replaceNamed, substituteNamed. cbv zeta.
  change (str "{year}") with (placeholder (str "year")).
  change (str "{month}") with (placeholder (str "month")).
  change (str "{day}") with (placeholder (str "day")).
  change (str "{date}") with (placeholder (str "date")).
  change (str "{time}") with (placeholder (str "time")).
  change (str "{timestamp}") with (placeholder (str "timestamp")).
  change (str "{timestamp_nano}") with (placeholder (str "timestamp_nano")).
  change (str "{originname}") with (placeholder (str "originname")).
  change (str "{originname_without_ext}")
    with (placeholder (str "originname_without_ext")).
  change (str "{ext}") with (placeholder (str "ext")).
  destruct (@replaceAll_tokens (str "year") (year now) ts)
    as (E1 & W1 & V1); [repeat constructor | exact W | intros _; exact Iy |].
  rewrite E1. clear E1.
  destruct (@replaceAll_tokens (str "month") (month now) _
              ltac:(repeat constructor) W1 (fun _ => Im)) as (E2 & W2 & V2).
  rewrite E2. clear E2.
  destruct (@replaceAll_tokens (str "day") (day now) _
              ltac:(repeat constructor) W2 (fun _ => Id)) as (E3 & W3 & V3).
  rewrite E3. clear E3.
  destruct (@replaceAll_tokens (str "date") (dateStr now) _
              ltac:(repeat constructor) W3 (fun _ => Idate)) as (E4 & W4 & V4).
  rewrite E4. clear E4.
  destruct (@replaceAll_tokens (str "time") (timeStr now) _
              ltac:(repeat constructor) W4 (fun _ => Itime)) as (E5 & W5 & V5).
  rewrite E5. clear E5.
  destruct (@replaceAll_tokens (str "timestamp") (timestamp now) _
              ltac:(repeat constructor) W5 (fun _ => Its)) as (E6 & W6 & V6).
  rewrite E6. clear E6.
  assert (In7 : forall b, In (Var b)
                  (substitute (str "timestamp") (timestamp now)
                     (substitute (str "time") (timeStr now)
                        (substitute (str "date") (dateStr now)
                           (substitute (str "day") (day now)
                              (substitute (str "month") (month now)
                                 (substitute (str "year") (year now) ts))))))
                  -> In (Var b) ts)
    by (intros b H; apply V1, V2, V3, V4, V5, V6, H).
  destruct (@replaceAll_tokens (str "timestamp_nano")
              (timestampNano printDouble now) _
              ltac:(repeat constructor) W6 (fun H => Hn (In7 _ H)))
    as (E7 & W7 & V7).
  rewrite E7. clear E7.
  destruct (@replaceAll_tokens (str "originname") (originName filename) _
              ltac:(repeat constructor) W7
              (fun _ => safe_inert (replaceUnsafe_safe _)))
    as (E8 & W8 & V8).
  rewrite E8. clear E8.
  destruct (@replaceAll_tokens (str "originname_without_ext")
              (originNameWithoutExt filename) _
              ltac:(repeat constructor) W8
              (fun _ => safe_inert (originNameWithoutExt_safe filename)))
    as (E9 & W9 & V9).
  rewrite E9. clear E9.
  destruct (@replaceAll_tokens (str "ext") (ext filename) _
              ltac:(repeat constructor) W9
              (fun H => He (In7 _ (V7 _ (V8 _ (V9 _ H))))))
    as (E10 & _ & _).
  exact E10.
Qed.

(** X1.  For a template made of text without opening brace and of variables
    [{name}], the ten replacements of the clock and file name variables
    amount to replacing each such variable by its value, once, and to
    leaving the text and every other variable as they are. *)
Theorem named_variables_tokenwise (printDouble : Z -> jsString) (now : Date)
    (filename : jsString) (ts : list token) :
  wellFormed ts ->
  (In (Var (str "timestamp_nano")) ts -> inert (timestampNano printDouble now)) ->
  (In (Var (str "ext")) ts -> inert (ext filename)) ->
  replaceNamed printDouble now filename (render ts)
  = instantiate printDouble now filename ts.
Proof. apply replaceNamed_render. Qed.

Lemma named_variables_tokenwise_witness :
  wellFormed [Text (ch "a"); Text (ch "/"); Var (str "originname");
              Text (ch "-"); Var (str "size"); Var (str "ext")]
  /\ inert (ext (str "my photo.png"))
  /\ replaceNamed toString Sample.christmas (str "my photo.png")
       (str "a/{originname}-{size}{ext}")
     = str "a/my_photo.png-{size}.png".
Proof.
  assert (W : wellFormed [Text (ch "a"); Text (ch "/"); Var (str "originname");
                          Text (ch "-"); Var (str "size"); Var (str "ext")])
    by (repeat constructor).
  assert (I : inert (ext (str "my photo.png")))
    by (vm_compute; repeat constructor).
  split; [exact W|]. split; [exact I|].
  refine (eq_trans
    (@named_variables_tokenwise toString Sample.christmas (str "my photo.png")
       _ W _ (fun _ => I)) _).
  - intros H. exfalso. cbn [In] in H.
    repeat (destruct H as [H|H]; [discriminate|]). exact H.
  - vm_compute. reflexivity.
Defined.

(** X2.  A template that holds none of the thirteen variables is returned as
    it is, and nothing is drawn from the random source. *)
Theorem template_without_variables (printDouble : Z -> jsString) (now : Date)
    (filename format : jsString) (e : Entropy) :
  free allPlaceholders format = true ->
  parsePath printDouble now filename format e = Normal (format, e).
Proof.
  intros H. unfold free, allPlaceholders, timePlaceholders, randomPlaceholders in H.
  cbn [app forallb] in H.
  repeat (apply andb_true_iff in H as [?H H]).
  repeat match goal with
         | H : negb _ = true |- _ => apply negb_true_iff in H
         end.
  unfold parsePath, replaceNamed. cbv zeta.
  rewrite (@replaceAll_absent (str "{year}") _ format) by assumption.
  rewrite (@replaceAll_absent (str "{month}") _ format) by assumption.
  rewrite (@replaceAll_absent (str "{day}") _ format) by assumption.
  rewrite (@replaceAll_absent (str "{date}") _ format) by assumption.
  rewrite (@replaceAll_absent (str "{time}") _ format) by assumption.
  rewrite (@replaceAll_absent (str "{timestamp}") _ format) by assumption.
  rewrite (@replaceAll_absent (str "{timestamp_nano}") _ format) by assumption.
  rewrite (@replaceAll_absent (str "{originname}") _ format) by assumption.
  rewrite (@replaceAll_absent (str "{originname_without_ext}") _ format)
    by assumption.
  rewrite (@replaceAll_absent (str "{ext}") _ format) by assumption.
  apply replaceRandom_absent.
  unfold free, randomPlaceholders. cbn [forallb].
  repeat match goal with
         | H : occurs _ format = false |- _ => rewrite H; clear H
         end.
  reflexivity.
Qed.

Lemma template_without_variables_witness :
  free allPlaceholders (str "inbox/{user}/latest.bin") = true
  /\ parsePath toString Sample.christmas (str "cat.gif")
       (str "inbox/{user}/latest.bin") Sample.counting
     = Normal (str "inbox/{user}/latest.bin", Sample.counting).
Proof.
  assert (H : free allPlaceholders (str "inbox/{user}/latest.bin") = true)
    by (vm_compute; reflexivity).
  split; [exact H|].
  exact (@template_without_variables toString Sample.christmas (str "cat.gif")
           (str "inbox/{user}/latest.bin") Sample.counting H).
Defined.

(* ================================================================== *)
(** * What a template begins with *)
(* ================================================================== *)

Section Prefix.

Local Open Scope nat_scope.

Lemma replaceAll_prefix (a r u x : jsString) :
  Forall notOpening u ->
  (exists t, x = u ++ t) ->
  exists t', replaceAll (placeholder a) r x = u ++ t'.
Proof.
  intros Hu [t ->]. unfold replaceAll, matchAll.
  rewrite scan_run by exact Hu. rewrite flat_map_lits.
  eexists. reflexivity.
Qed.

Lemma replaceNamed_prefix (printDouble : Z -> jsString) (now : Date)
    (filename u t : jsString) :
  Forall notOpening u ->
  exists t', replaceNamed printDouble now filename (u ++ t) = u ++ t'.
Proof.
  intros Hu. unfold replaceNamed. cbv zeta.
  change (str "{year}") with (placeholder (str "year")).
  change (str "{month}") with (placeholder (str "month")).
  change (str "{day}") with (placeholder (str "day")).
  change (str "{date}") with (placeholder (str "date")).
  change (str "{time}") with (placeholder (str "time")).
  change (str "{timestamp}") with (placeholder (str "timestamp")).
  change (str "{timestamp_nano}") with (placeholder (str "timestamp_nano")).
  change (str "{originname}") with (placeholder (str "originname")).
  change (str "{originname_without_ext}")
    with (placeholder (str "originname_without_ext")).
  change (str "{ext}") with (placeholder (str "ext")).
  do 10 (apply replaceAll_prefix; [exact Hu|]).
  now exists t.
Qed.

Lemma weave_prefix (a u t : jsString)
    (v : nat -> jsString -> jsString -> jsString) :
  Forall notOpening u ->
  exists t', weave (matchAll (placeholder a) (u ++ t)) v 0 = u ++ t'.
Proof.
  intros Hu. unfold matchAll. rewrite scan_run by exact Hu.
  rewrite weave_lits. eexists. reflexivity.
Qed.

Lemma replaceRandom_prefix (u t : jsString) (e : Entropy) :
  Forall notOpening u ->
  exists t' e', replaceRandom (u ++ t) e = Normal (u ++ t', e').
Proof.
  intros Hu. unfold replaceRandom, bind.
  rewrite (@replaceAllWith_weave (str "{randomkey8}") (generateRandomHex 8)
             4 hexOf _ e generateRandomHex_8).
  change (str "{randomkey8}") with (placeholder (str "randomkey8")).
  destruct (@weave_prefix (str "randomkey8") u t
              (fun i _ _ => hexOf (draw 4 i e)) Hu) as [t1 ->].
  rewrite (@replaceAllWith_weave (str "{randomkey16}") (generateRandomHex 16)
             8 hexOf _ _ generateRandomHex_16).
  change (str "{randomkey16}") with (placeholder (str "randomkey16")).
  match goal with
  | |- context [weave (matchAll _ (u ++ t1)) ?v 0] =>
      destruct (@weave_prefix (str "randomkey16") u t1 v Hu) as [t2 ->]
  end.
  rewrite (@replaceAllWith_weave (str "{uuid}") randomUUID
             16 uuidOfBytes _ _ (fun e0 => eq_refl)).
  change (str "{uuid}") with (placeholder (str "uuid")).
  match goal with
  | |- context [weave (matchAll _ (u ++ t2)) ?v 0] =>
      destruct (@weave_prefix (str "uuid") u t2 v Hu) as [t3 ->]
  end.
  unfold ret. eexists. eexists. reflexivity.
Qed.

Lemma digits_notOpening (s : jsString) :
  Forall (fun c => isDigitOrMinus c = true) s -> Forall notOpening s.
Proof. intros H. now apply inert_notOpening, digits_inert. Qed.

Lemma year_head (now : Date) :
  exists c r, year now = c :: r /\ isDigitOrMinus c = true.
Proof.
  pose proof (toString_digits (getFullYear now)) as D.
  pose proof (@toString_nonempty (getFullYear now)) as N.
  unfold year. destruct (toString (getFullYear now)) as [|c r]; [contradiction|].
  exists c, r. split; [reflexivity|]. now inversion D.
Qed.

End Prefix.

(** X3.  The text before the first opening brace of a template is the
    beginning of the resolved path: no replacement reaches it, and
    [parsePath] completes. *)
Theorem literal_prefix_kept (printDouble : Z -> jsString) (now : Date)
    (filename u t : jsString) (e : Entropy) :
  Forall notOpening u ->
  exists t' e',
    parsePath printDouble now filename (u ++ t) e = Normal (u ++ t', e').
Proof.
  intros Hu. unfold parsePath.
  destruct (@replaceNamed_prefix printDouble now filename u t Hu) as [t1 ->].
  now apply replaceRandom_prefix.
Qed.

Lemma literal_prefix_kept_witness :
  Forall notOpening (str "uploads/")
  /\ exists t' e',
       parsePath toString Sample.christmas (str "cat.gif")
         (str "uploads/" ++ str "{uuid}{ext}") Sample.counting
       = Normal (str "uploads/" ++ t', e').
Proof.
  assert (H : Forall notOpening (str "uploads/")) by (repeat constructor).
  split; [exact H|].
  exact (@literal_prefix_kept toString Sample.christmas (str "cat.gif")
           (str "uploads/") (str "{uuid}{ext}") Sample.counting H).
Defined.

(* ================================================================== *)
(** * The default path format *)
(* ================================================================== *)

Section DefaultFormat.

Local Open Scope nat_scope.

Lemma occurs_in_run (p u : jsString) :
  Forall notOpening u -> occurs (placeholder p) u = false.
Proof.
  intros H. apply countOcc_absent.
  rewrite <- (app_nil_r u). rewrite countOcc_run by exact H. reflexivity.
Qed.

Lemma hexOf_notOpening (bs : list N) :
  Forall (fun b => (b < 256)%N) bs -> Forall notOpening (hexOf bs).
Proof.
  intros H. eapply Forall_impl; [|apply hex_digits, H].
  intros c Hc. unfold notOpening.
  destruct (N.eqb_spec c (ch "{")); [subst; vm_compute in Hc; discriminate | reflexivity].
Qed.

(** A single variable between two texts, replaced by a callback that
    reads [n] bytes. *)
Lemma replaceAllWith_single (p : jsString) (f : Eff jsString) (n : nat)
    (g : list N -> jsString) (u v : jsString) (e : Entropy) :
  (forall e, f e = Normal (g (window n e), advance n e)) ->
  Forall notOpening u -> Forall notOpening v ->
  replaceAllWith (placeholder p) f (u ++ placeholder p ++ v) e
  = Normal (u ++ g (window n e) ++ v, advance n e).
Proof.
  intros Hf Hu Hv.
  rewrite (@replaceAllWith_weave (placeholder p) f n g _ e Hf).
  unfold matchAll.
  rewrite scan_run by exact Hu.
  rewrite scan_hit by apply placeholder_nonempty.
  assert (Hs : forall before, scan (placeholder p) 0 before v = map Lit v).
  { intros before. rewrite <- (app_nil_r v) at 1.
    rewrite scan_run by exact Hv. cbn [scan]. apply app_nil_r. }
  rewrite Hs.
  assert (Hh : forall w ps, hits (map Lit w ++ ps) = hits ps).
  { intros w ps. induction w as [|c w IH]; [reflexivity | exact IH]. }
  rewrite weave_lits, Hh. cbn [weave hits].
  rewrite <- (app_nil_r (map Lit v)), weave_lits, Hh. cbn [weave hits].
  rewrite app_nil_r. unfold draw.
  replace (n * 0) with 0 by lia. rewrite advance_0.
  replace (n * 1) with n by lia. reflexivity.
Qed.

Lemma year_template (printDouble : Z -> jsString) (now : Date)
    (filename t : jsString) (e : Entropy) :
  exists t' e',
    parsePath printDouble now filename (placeholder (str "year") ++ t) e
    = Normal (year now ++ t', e').
Proof.
  destruct (clock_inert now) as (Iy & _).
  assert (Hy : Forall notOpening (year now)) by now apply inert_notOpening.
  assert (P : exists t1, replaceNamed printDouble now filename
                           (placeholder (str "year") ++ t) = year now ++ t1).
  { unfold replaceNamed. cbv zeta.
    change (str "{year}") with (placeholder (str "year")).
    change (str "{month}") with (placeholder (str "month")).
    change (str "{day}") with (placeholder (str "day")).
    change (str "{date}") with (placeholder (str "date")).
    change (str "{time}") with (placeholder (str "time")).
    change (str "{timestamp}") with (placeholder (str "timestamp")).
    change (str "{timestamp_nano}") with (placeholder (str "timestamp_nano")).
    change (str "{originname}") with (placeholder (str "originname")).
    change (str "{originname_without_ext}")
      with (placeholder (str "originname_without_ext")).
    change (str "{ext}") with (placeholder (str "ext")).
    do 9 (apply replaceAll_prefix; [exact Hy|]).
    unfold replaceAll, matchAll.
    rewrite scan_hit by apply placeholder_nonempty.
    cbn [flat_map expand]. rewrite inert_plain by exact Iy.
    eexists. reflexivity. }
  destruct P as [t1 P]. unfold parsePath. rewrite P.
  now apply replaceRandom_prefix.
Qed.

End DefaultFormat.

(** X4.  With the default path format and a file name whose extension holds
    neither an opening brace nor a dollar sign, the resolved path is the
    year, the month and the day of the clock separated by slashes, then
    the sixteen hexadecimal digits of the next eight bytes of the random
    source, then the extension; eight bytes are drawn. *)
Theorem default_format_key (printDouble : Z -> jsString) (now : Date)
    (filename : jsString) (e : Entropy) :
  inert (ext filename) ->
  parsePath printDouble now filename Worker.defaultFormat e
  = Normal (year now ++ str "/" ++ month now ++ str "/" ++ day now ++ str "/"
              ++ hexOf (window 8 e) ++ ext filename,
            advance 8 e).
Proof.
  intros He.
  destruct (clock_inert now) as (Iy & Im & Id & _).
  assert (Hu : Forall notOpening
                 (year now ++ str "/" ++ month now ++ str "/" ++ day now ++ str "/")).
  { rewrite !Forall_app.
    repeat split; try (now apply inert_notOpening); repeat constructor. }
  assert (Hv : Forall notOpening (ext filename)) by now apply inert_notOpening.
  unfold parsePath.
  change Worker.defaultFormat with (render defaultTokens).
  rewrite replaceNamed_render;
    [| repeat constructor
     | intros H; exfalso; cbn [defaultTokens In] in H;
       repeat (destruct H as [H|H]; [discriminate|]); exact H
     | intros _; exact He].
  change (instantiate printDouble now filename defaultTokens)
    with (year now ++ str "/" ++ month now ++ str "/" ++ day now ++ str "/"
            ++ placeholder (str "randomkey16") ++ ext filename ++ []).
  rewrite app_nil_r.
  set (u := year now ++ str "/" ++ month now ++ str "/" ++ day now ++ str "/") in *.
  replace (year now ++ str "/" ++ month now ++ str "/" ++ day now ++ str "/"
             ++ placeholder (str "randomkey16") ++ ext filename)
    with (u ++ placeholder (str "randomkey16") ++ ext filename)
    by (unfold u; now rewrite <- !app_assoc).
  replace (year now ++ str "/" ++ month now ++ str "/" ++ day now ++ str "/"
             ++ hexOf (window 8 e) ++ ext filename)
    with (u ++ hexOf (window 8 e) ++ ext filename)
    by (unfold u; now rewrite <- !app_assoc).
  unfold replaceRandom, bind.
  rewrite replaceAllWith_absent.
  2:{ apply countOcc_absent.
      change (str "{randomkey8}") with (placeholder (str "randomkey8")).
      rewrite countOcc_run by exact Hu.
      rewrite countOcc_over_other;
        [| repeat constructor | repeat constructor
         | intros H; vm_compute in H; discriminate].
      rewrite <- (app_nil_r (ext filename)).
      rewrite countOcc_run by exact Hv. reflexivity. }
  change (str "{randomkey16}") with (placeholder (str "randomkey16")).
  rewrite (@replaceAllWith_single (str "randomkey16") (generateRandomHex 16) 8
             hexOf u (ext filename) e generateRandomHex_16 Hu Hv).
  rewrite replaceAllWith_absent; [reflexivity|].
  change (str "{uuid}") with (placeholder (str "uuid")).
  apply occurs_in_run.
  rewrite !Forall_app. repeat split; try assumption.
  apply hexOf_notOpening, window_bytes.
Qed.

Lemma default_format_key_witness :
  inert (ext (str "photo.png"))
  /\ parsePath toString Sample.christmas (str "photo.png")
       Worker.defaultFormat Sample.counting
     = Normal (str "2024/12/25/0001020304050607.png", advance 8 Sample.counting).
Proof.
  assert (I : inert (ext (str "photo.png"))) by (vm_compute; repeat constructor).
  split; [exact I|].
  rewrite (@default_format_key toString Sample.christmas (str "photo.png")
             Sample.counting I).
  vm_compute. reflexivity.
Defined.

(* ================================================================== *)
(** * The upload endpoint, further *)
(* ================================================================== *)

Section Uploads.

Import Worker.

Variable printDouble : Z -> jsString.
Variable env : Bindings.
Variables now stamp : Date.

Lemma admitted_dec (req : Request) : admitted env req \/ ~ admitted env req.
Proof.
  unfold admitted.
  destruct (AUTH_KEY env) as [k|]; [|right; intros (k & H & _); discriminate].
  destruct (truthy k) eqn:Ht;
    [|right; intros (k' & H & Ht' & _); injection H as <-; congruence].
  destruct (Authorization req) as [a|];
    [|right; intros (k' & _ & _ & H); discriminate].
  destruct (list_eq_dec N.eq_dec a k) as [->|Hne].
  - left. now exists k.
  - right. intros (k' & H & _ & H'). congruence.
Qed.

(** What the [try] block does with a file within the limit. *)
Lemma store_file (req : Request) (f : File) (custom : option formValue)
    (w : World) :
  (size f <= maxFileSize)%N ->
  store printDouble env now stamp req (mkBody (Some (FormFile f)) custom) w
  = match choosePath printDouble env now f custom (entropy w) with
    | Throw x => (uploadFailed x, w)
    | Normal (path, e') =>
        let call := putCall stamp req f (dropOneSlash path) in
        (if BUCKET env call
         then mkResponse 200 (str "success")
                (Some (publicUrl env (dropOneSlash path))) None
         else uploadFailed StoreError,
         mkWorld e' (call :: puts w))
    end.
Proof.
  intros Hsize. unfold store. cbn [file customPath].
  apply N.leb_le in Hsize. rewrite N.leb_antisym in Hsize.
  apply negb_true_iff in Hsize. rewrite Hsize.
  destruct (choosePath _ _ _ _ _ _) as [[path e']|x]; [|reflexivity].
  cbv zeta. now destruct (BUCKET env _).
Qed.

Lemma dropOneSlash_keeps (c : codeUnit) (r : jsString) :
  (c =? ch "/")%N = false -> dropOneSlash (c :: r) = c :: r.
Proof.
  intros H. unfold dropOneSlash.
  change (startsWith (str "/") (c :: r)) with ((ch "/" =? c)%N && true).
  now rewrite N.eqb_sym, H.
Qed.

End Uploads.

(** X5.  With no path format configured and no override, an admitted upload of
    a file within the limit makes one put, under a key that begins with
    the year of the clock and therefore never with a slash, whatever the
    name of the file. *)
Theorem default_key_begins_with_year (printDouble : Z -> jsString)
    (env : Worker.Bindings) (now stamp : Date) (req : Worker.Request)
    (f : Worker.File) (w : Worker.World) :
  admitted env req ->
  carries req f None ->
  (Worker.size f <= Worker.maxFileSize)%N ->
  Worker.UPLOAD_PATH_FORMAT env = None ->
  exists call,
    Worker.puts (snd (Worker.upload printDouble env now stamp req w))
    = call :: Worker.puts w
    /\ startsWith (year now) (Worker.key call) = true
    /\ startsWith (str "/") (Worker.key call) = false.
Proof.
  intros Ha Hb Hsize Hfmt.
  rewrite upload_admitted by exact Ha.
  rewrite Hb, store_file by exact Hsize.
  unfold Worker.choosePath. rewrite Hfmt. cbn [orElse].
  change Worker.defaultFormat
    with (placeholder (str "year") ++ str "/{month}/{day}/{randomkey16}{ext}").
  destruct (@year_template printDouble now (Worker.name f)
              (str "/{month}/{day}/{randomkey16}{ext}") (Worker.entropy w))
    as (t' & e' & ->).
  destruct (year_head now) as (c & r & Hy & Hc).
  assert (Hs : (c =? ch "/")%N = false).
  { destruct (N.eqb_spec c (ch "/")); [subst; vm_compute in Hc; discriminate | reflexivity]. }
  cbv zeta.
  assert (K : Worker.dropOneSlash (year now ++ t') = year now ++ t').
  { rewrite Hy. cbn [app]. now apply dropOneSlash_keeps. }
  rewrite K.
  exists (Worker.putCall stamp req f (year now ++ t')).
  split; [now destruct (Worker.BUCKET env _)|].
  cbn [Worker.putCall Worker.key]. split; [apply startsWith_app|].
  rewrite Hy. cbn [app].
  change (startsWith (str "/") (c :: r ++ t')) with ((ch "/" =? c)%N && true).
  now rewrite N.eqb_sym, Hs.
Qed.

Lemma default_key_begins_with_year_witness :
  admitted (Sample.bindings None) (Sample.post Sample.secret Sample.nested None)
  /\ exists call,
       Worker.puts (snd (Worker.upload toString (Sample.bindings None)
                           Sample.christmas Sample.christmas
                           (Sample.post Sample.secret Sample.nested None)
                           Sample.fresh))
       = call :: Worker.puts Sample.fresh
       /\ startsWith (year Sample.christmas) (Worker.key call) = true
       /\ startsWith (str "/") (Worker.key call) = false.
Proof.
  assert (A : admitted (Sample.bindings None)
                (Sample.post Sample.secret Sample.nested None))
    by (exists Sample.secret; repeat split; reflexivity).
  split; [exact A|].
  apply (@default_key_begins_with_year toString (Sample.bindings None)
           Sample.christmas Sample.christmas
           (Sample.post Sample.secret Sample.nested None) Sample.nested
           Sample.fresh A eq_refl).
  - vm_compute. discriminate.
  - reflexivity.
Defined.

Section Outcomes.

Import Worker.

Variable printDouble : Z -> jsString.
Variable env : Bindings.
Variables now stamp : Date.

(** The two ways a request can end: refused with the world as it was,
    or one put made for an admitted request that carries a file within
    the limit. *)
Lemma upload_outcome (req : Request) (w : World) :
  (snd (upload printDouble env now stamp req w) = w
   /\ status (fst (upload printDouble env now stamp req w)) <> 200%N
   /\ url (fst (upload printDouble env now stamp req w)) = None)
  \/ (admitted env req
      /\ exists f custom path e',
           carries req f custom
           /\ (size f <= maxFileSize)%N
           /\ choosePath printDouble env now f custom (entropy w)
              = Normal (path, e')
           /\ upload printDouble env now stamp req w
              = (if BUCKET env (putCall stamp req f (dropOneSlash path))
                 then mkResponse 200 (str "success")
                        (Some (publicUrl env (dropOneSlash path))) None
                 else uploadFailed StoreError,
                 mkWorld e' (putCall stamp req f (dropOneSlash path) :: puts w))).
Proof.
  destruct (admitted_dec env req) as [Ha|Hn].
  - rewrite upload_admitted by exact Ha.
    destruct (parseBody req) as [[fl custom]|x] eqn:Hb;
      [|left; cbn; repeat split; discriminate].
    destruct fl as [[s|f]|];
      [left; cbn; repeat split; discriminate | |
       left; cbn; repeat split; discriminate].
    destruct (N.leb_spec (size f) maxFileSize) as [Hsize|Hsize].
    + rewrite store_file by exact Hsize.
      destruct (choosePath printDouble env now f custom (entropy w))
        as [[path e']|x] eqn:Hc;
        [|left; cbn; repeat split; discriminate].
      right. split; [exact Ha|].
      exists f, custom, path, e'. repeat split; assumption.
    + left. unfold store. cbn [file].
      apply N.ltb_lt in Hsize. rewrite Hsize.
      cbn. repeat split; discriminate.
  - destruct (@upload_refused printDouble env now stamp req w Hn) as [Hw Hs].
    left. split; [exact Hw|]. split.
    + destruct Hs as [-> | ->]; discriminate.
    + unfold upload.
      destruct (AUTH_KEY env) as [k|] eqn:Hk; [|reflexivity].
      destruct (truthy k) eqn:Ht; [|reflexivity].
      destruct (Authorization req) as [a|] eqn:Hh; [|reflexivity].
      destruct (eqbS a k) eqn:E; [|reflexivity].
      exfalso. apply Hn. exists k. apply eqbS_true in E. now subst a.
Qed.

Lemma cons_not_self (A : Type) (x : A) (l : list A) : l <> x :: l.
Proof.
  intros H. apply (f_equal (@length A)) in H. cbn in H. lia.
Qed.

End Outcomes.

(** X6.  Nothing is stored without admission and a file within the limit: when
    a request has made a put, its credential was the configured secret,
    its body carried a file of at most 100 MB, and the put names that
    file, passes its stream, and has a content type and an uploader
    address that are not empty. *)
Theorem put_requires_admission (printDouble : Z -> jsString)
    (env : Worker.Bindings) (now stamp : Date) (req : Worker.Request)
    (w : Worker.World) (call : Worker.PutCall) :
  Worker.puts (snd (Worker.upload printDouble env now stamp req w))
  = call :: Worker.puts w ->
  admitted env req
  /\ exists f custom,
       carries req f custom
       /\ (Worker.size f <= Worker.maxFileSize)%N
       /\ Worker.originalName call = Worker.name f
       /\ Worker.body call = Worker.stream f
       /\ Worker.contentType call <> []
       /\ Worker.uploaderIp call <> [].
Proof.
  intros H.
  destruct (@upload_outcome printDouble env now stamp req w)
    as [(Hw & _ & _) | (Ha & f & custom & path & e' & Hb & Hsize & _ & E)].
  - rewrite Hw in H. now apply cons_not_self in H.
  - split; [exact Ha|]. exists f, custom.
    rewrite E in H. cbn [snd Worker.puts] in H. injection H as <-.
    repeat split; try assumption.
    + cbn [Worker.putCall Worker.contentType orElse].
      destruct (Worker.type f); cbn; discriminate.
    + cbn [Worker.putCall Worker.uploaderIp].
      destruct (Worker.CF_Connecting_IP req) as [[|c ip]|]; cbn; discriminate.
Qed.

Lemma put_requires_admission_witness :
  exists call,
    Worker.puts (snd (Worker.upload toString (Sample.bindings None)
                        Sample.christmas Sample.christmas
                        (Sample.post Sample.secret Sample.bashrc None)
                        Sample.fresh))
    = call :: Worker.puts Sample.fresh
    /\ admitted (Sample.bindings None)
         (Sample.post Sample.secret Sample.bashrc None)
    /\ Worker.contentType call = str "application/octet-stream".
Proof.
  eexists. split; [vm_compute; reflexivity|].
  split; [|reflexivity].
  refine (proj1 (@put_requires_admission toString (Sample.bindings None)
                   Sample.christmas Sample.christmas
                   (Sample.post Sample.secret Sample.bashrc None)
                   Sample.fresh _ _)).
  vm_compute. reflexivity.
Defined.

(** X7.  Success is reported only for a put that the bucket completed: an
    answer 200 comes with exactly one new put, completed, and its URL is
    the public domain, one trailing slash removed, a slash and the key of
    that put.  When the bucket does not complete the put the answer is the
    failed upload, and an answer other than 200 carries no URL. *)
Theorem success_means_stored (printDouble : Z -> jsString)
    (env : Worker.Bindings) (now stamp : Date) (req : Worker.Request)
    (w : Worker.World) :
  (Worker.status (fst (Worker.upload printDouble env now stamp req w)) = 200%N ->
   exists call,
     Worker.puts (snd (Worker.upload printDouble env now stamp req w))
     = call :: Worker.puts w
     /\ Worker.BUCKET env call = true
     /\ Worker.url (fst (Worker.upload printDouble env now stamp req w))
        = Some (stripTrailingSlash (orElse (Worker.PUBLIC_DOMAIN env) [])
                  ++ str "/" ++ Worker.key call))
  /\ (forall call,
        Worker.puts (snd (Worker.upload printDouble env now stamp req w))
        = call :: Worker.puts w ->
        Worker.BUCKET env call = false ->
        fst (Worker.upload printDouble env now stamp req w)
        = Worker.uploadFailed StoreError)
  /\ (Worker.status (fst (Worker.upload printDouble env now stamp req w)) <> 200%N ->
      Worker.url (fst (Worker.upload printDouble env now stamp req w)) = None).
Proof.
  destruct (@upload_outcome printDouble env now stamp req w)
    as [(Hw & Hs & Hu) | (Ha & f & custom & path & e' & Hb & Hsize & _ & E)].
  - split; [intros H; contradiction|]. split; [|intros _; exact Hu].
    intros call H. rewrite Hw in H. now apply cons_not_self in H.
  - rewrite E. cbn [fst snd Worker.puts].
    destruct (Worker.BUCKET env _) eqn:Hbucket.
    + split; [|split].
      * intros _. eexists. split; [reflexivity|]. split; [exact Hbucket|].
        reflexivity.
      * intros call H. injection H as <-. congruence.
      * intros H. now contradiction H.
    + split; [|split].
      * cbn. discriminate.
      * reflexivity.
      * reflexivity.
Qed.

Lemma success_means_stored_witness :
  Worker.status (fst (Worker.upload toString (Sample.bindings None)
                        Sample.christmas Sample.christmas
                        (Sample.post Sample.secret Sample.photo None)
                        Sample.fresh)) = 200%N
  /\ exists call,
       Worker.puts (snd (Worker.upload toString (Sample.bindings None)
                           Sample.christmas Sample.christmas
                           (Sample.post Sample.secret Sample.photo None)
                           Sample.fresh))
       = call :: Worker.puts Sample.fresh
       /\ Worker.BUCKET (Sample.bindings None) call = true
       /\ Worker.url (fst (Worker.upload toString (Sample.bindings None)
                             Sample.christmas Sample.christmas
                             (Sample.post Sample.secret Sample.photo None)
                             Sample.fresh))
          = Some (stripTrailingSlash
                    (orElse (Worker.PUBLIC_DOMAIN (Sample.bindings None)) [])
                    ++ str "/" ++ Worker.key call).
Proof.
  assert (S : Worker.status (fst (Worker.upload toString (Sample.bindings None)
                        Sample.christmas Sample.christmas
                        (Sample.post Sample.secret Sample.photo None)
                        Sample.fresh)) = 200%N) by (vm_compute; reflexivity).
  split; [exact S|].
  exact (proj1 (@success_means_stored toString (Sample.bindings None)
                  Sample.christmas Sample.christmas
                  (Sample.post Sample.secret Sample.photo None) Sample.fresh) S).
Defined.

(** X8.  The size limit is inclusive: for an admitted request that carries a
    file, the answer is 413 exactly when the file is larger than
    104857600 bytes; a file of exactly that size passes the check. *)
Theorem size_limit_inclusive (printDouble : Z -> jsString)
    (env : Worker.Bindings) (now stamp : Date) (req : Worker.Request)
    (f : Worker.File) (custom : option Worker.formValue) (w : Worker.World) :
  admitted env req ->
  carries req f custom ->
  (Worker.status (fst (Worker.upload printDouble env now stamp req w)) = 413%N
   <-> (104857600 < Worker.size f)%N).
Proof.
  intros Ha Hb.
  rewrite upload_admitted by exact Ha. rewrite Hb.
  change 104857600%N with Worker.maxFileSize.
  destruct (N.ltb_spec Worker.maxFileSize (Worker.size f)) as [Hgt|Hle].
  - unfold Worker.store. cbn [Worker.file].
    apply N.ltb_lt in Hgt. rewrite Hgt. cbn. apply N.ltb_lt in Hgt. tauto.
  - rewrite store_file by exact Hle.
    split; [|lia].
    destruct (Worker.choosePath _ _ _ _ _ _) as [[path e']|x]; cbv zeta.
    + destruct (Worker.BUCKET env _); cbn; discriminate.
    + cbn. discriminate.
Qed.

Lemma size_limit_inclusive_witness :
  admitted (Sample.bindings None) (Sample.post Sample.secret Sample.brim None)
  /\ carries (Sample.post Sample.secret Sample.brim None) Sample.brim None
  /\ Worker.size Sample.brim = 104857600%N
  /\ Worker.status (fst (Worker.upload toString (Sample.bindings None)
                           Sample.christmas Sample.christmas
                           (Sample.post Sample.secret Sample.brim None)
                           Sample.fresh)) <> 413%N.
Proof.
  assert (A : admitted (Sample.bindings None)
                (Sample.post Sample.secret Sample.brim None))
    by (exists Sample.secret; repeat split; reflexivity).
  split; [exact A|]. split; [reflexivity|]. split; [reflexivity|].
  intros H.
  apply (@size_limit_inclusive toString (Sample.bindings None)
           Sample.christmas Sample.christmas _ Sample.brim None Sample.fresh
           A eq_refl) in H.
  vm_compute in H. discriminate.
Defined.

(** X9.  An admitted request whose parsed body has no file part, or a text
    field under the name [file], is answered 400 [No file uploaded]; no
    put is made and the random source is not read. *)
Theorem missing_file_refused (printDouble : Z -> jsString)
    (env : Worker.Bindings) (now stamp : Date) (req : Worker.Request)
    (b : Worker.Body) (w : Worker.World) :
  admitted env req ->
  Worker.parseBody req = Normal b ->
  (forall f, Worker.file b <> Some (Worker.FormFile f)) ->
  Worker.upload printDouble env now stamp req w
  = (Worker.json 400 (str "No file uploaded"), w).
Proof.
  intros Ha Hb Hf.
  rewrite upload_admitted by exact Ha. rewrite Hb.
  unfold Worker.store.
  destruct (Worker.file b) as [[s|f]|]; try reflexivity.
  now contradiction (Hf f).
Qed.

Lemma missing_file_refused_witness :
  Worker.upload toString (Sample.bindings None) Sample.christmas Sample.christmas
    (Worker.mkRequest (Some Sample.secret) None
       (Normal (Worker.mkBody (Some (Worker.FormString (str "photo.png")))
                  (Some (Worker.FormString (str "a/b.png"))))))
    Sample.fresh
  = (Worker.json 400 (str "No file uploaded"), Sample.fresh).
Proof.
  eapply missing_file_refused.
  - exists Sample.secret. repeat split; reflexivity.
  - reflexivity.
  - cbn. discriminate.
Defined.

(** X10.  A [customPath] that is blank (empty or white space only) or that is
    not a text field is ignored: the request is handled exactly as the
    same request without a [customPath], the key coming from the
    template. *)
Theorem unusable_override_ignored (printDouble : Z -> jsString)
    (env : Worker.Bindings) (now stamp : Date)
    (a ip : option jsString) (fl custom : option Worker.formValue)
    (w : Worker.World) :
  match custom with
  | Some (Worker.FormString cp) => trim cp = []
  | _ => True
  end ->
  Worker.upload printDouble env now stamp
    (Worker.mkRequest a ip (Normal (Worker.mkBody fl custom))) w
  = Worker.upload printDouble env now stamp
      (Worker.mkRequest a ip (Normal (Worker.mkBody fl None))) w.
Proof.
  intros H. unfold Worker.upload.
  cbn [Worker.Authorization Worker.parseBody].
  destruct (Worker.AUTH_KEY env) as [k|]; [|reflexivity].
  destruct (truthy k); [|reflexivity].
  destruct a as [a|]; [|reflexivity].
  destruct (eqbS a k); [|reflexivity].
  unfold Worker.store. cbn [Worker.file Worker.customPath].
  destruct fl as [[s|f]|]; try reflexivity.
  destruct (Worker.maxFileSize <? Worker.size f)%N; [reflexivity|].
  assert (E : Worker.choosePath printDouble env now f custom
              = Worker.choosePath printDouble env now f None).
  { destruct custom as [[cp|g]|]; try reflexivity.
    unfold Worker.choosePath. rewrite H. reflexivity. }
  rewrite E. reflexivity.
Qed.

Lemma unusable_override_ignored_witness :
  trim (str "  ") = []
  /\ Worker.upload toString (Sample.bindings None) Sample.christmas Sample.christmas
       (Worker.mkRequest (Some Sample.secret) None
          (Normal (Worker.mkBody (Some (Worker.FormFile Sample.photo))
                     (Some (Worker.FormString (str "  ")))))) Sample.fresh
     = Worker.upload toString (Sample.bindings None) Sample.christmas Sample.christmas
         (Worker.mkRequest (Some Sample.secret) None
            (Normal (Worker.mkBody (Some (Worker.FormFile Sample.photo)) None)))
         Sample.fresh.
Proof.
  split; [reflexivity|].
  apply (@unusable_override_ignored toString (Sample.bindings None)
           Sample.christmas Sample.christmas (Some Sample.secret) None
           (Some (Worker.FormFile Sample.photo))
           (Some (Worker.FormString (str "  "))) Sample.fresh).
  reflexivity.
Defined.

Section PublicUrl.

Lemma stripTrailingSlash_snoc (d : jsString) (c : codeUnit) :
  stripTrailingSlash (d ++ [c]) = if (c =? ch "/")%N then d else d ++ [c].
Proof.
  unfold stripTrailingSlash. rewrite rev_app_distr. cbn [rev app].
  destruct (N.eqb_spec c (ch "/")) as [->|Hc].
  - apply rev_involutive.
  - reflexivity.
Qed.

End PublicUrl.

(** X11.  The URL returned for a key has exactly one slash between the public
    domain and the key whether or not the configured domain ends in a
    slash: the domains [d] and [d/] give the same URL [d/key], for every
    [d] that does not itself end in a slash; only one trailing slash is
    removed.  Without a configured domain the URL is [/key]. *)
Theorem public_url_one_slash (env : Worker.Bindings) (path : jsString) :
  (Worker.PUBLIC_DOMAIN env = None \/ Worker.PUBLIC_DOMAIN env = Some [] ->
   Worker.publicUrl env path = str "/" ++ path)
  /\ (forall d c,
        Worker.PUBLIC_DOMAIN env = Some (d ++ [c]) ->
        Worker.publicUrl env path
        = (if (c =? ch "/")%N then d else d ++ [c]) ++ str "/" ++ path).
Proof.
  unfold Worker.publicUrl. split.
  - intros [H|H]; rewrite H; reflexivity.
  - intros d c H. rewrite H.
    assert (E : orElse (Some (d ++ [c])) [] = d ++ [c])
      by (destruct d; reflexivity).
    rewrite E, stripTrailingSlash_snoc. reflexivity.
Qed.

Lemma public_url_one_slash_witness :
  Worker.publicUrl
    (Worker.mkBindings (fun _ => true) (Some Sample.secret)
       (Some (str "https://cdn.example.com/")) None)
    (str "a/b.png")
  = str "https://cdn.example.com/a/b.png".
Proof.
  exact (proj2 (public_url_one_slash
                  (Worker.mkBindings (fun _ => true) (Some Sample.secret)
                     (Some (str "https://cdn.example.com/")) None)
                  (str "a/b.png"))
           (str "https://cdn.example.com") (ch "/") eq_refl).
Defined.

Section Serving.

Variable printDouble : Z -> jsString.
Variable env : Worker.Bindings.

Lemma upload_step (now stamp : Date) (req : Worker.Request) (w : Worker.World) :
  (Worker.puts (snd (Worker.upload printDouble env now stamp req w)) = Worker.puts w
   /\ succeeded (fst (Worker.upload printDouble env now stamp req w)) = false)
  \/ (exists call,
        Worker.puts (snd (Worker.upload printDouble env now stamp req w))
        = call :: Worker.puts w
        /\ succeeded (fst (Worker.upload printDouble env now stamp req w))
           = Worker.BUCKET env call).
Proof.
  destruct (@upload_outcome printDouble env now stamp req w)
    as [(Hw & Hs & _) | (_ & f & custom & path & e' & _ & _ & _ & E)].
  - left. rewrite Hw. split; [reflexivity|].
    unfold succeeded. now apply N.eqb_neq.
  - right. rewrite E. eexists. split; [reflexivity|].
    cbn [fst]. destruct (Worker.BUCKET env _); reflexivity.
Qed.

End Serving.

(** X12.  Serving a sequence of requests: every request gets one answer; the
    puts made before are all kept, in their order, under the new ones; a
    request makes at most one put; and the answers that report a success
    are as many as the new puts the bucket completed. *)
Theorem serve_accounting (printDouble : Z -> jsString) (env : Worker.Bindings)
    (arrivals : list Worker.Arrival) (w : Worker.World) :
  length (fst (Worker.serve printDouble env arrivals w)) = length arrivals
  /\ exists new,
       Worker.puts (snd (Worker.serve printDouble env arrivals w))
       = new ++ Worker.puts w
       /\ length new <= length arrivals
       /\ length (filter succeeded (fst (Worker.serve printDouble env arrivals w)))
          = length (filter (Worker.BUCKET env) new).
Proof.
  revert w. induction arrivals as [|a rest IH]; intros w.
  - split; [reflexivity|]. exists []. repeat split; auto.
  - cbn [Worker.serve].
    pose proof (upload_step printDouble env (Worker.now a) (Worker.stamp a)
                  (Worker.request a) w) as Hstep.
    destruct (Worker.upload printDouble env (Worker.now a) (Worker.stamp a)
                (Worker.request a) w) as [answer w1].
    specialize (IH w1).
    destruct (Worker.serve printDouble env rest w1) as [answers w2].
    cbn [fst snd] in *.
    destruct IH as (Hlen & new & Hputs & Hnew & Hcount).
    split; [cbn [length]; now rewrite Hlen|].
    destruct Hstep as [(Hsame & Hfail) | (call & Hcall & Hok)].
    + exists new. rewrite Hputs, Hsame.
      split; [reflexivity|]. split; [cbn [length]; lia|].
      cbn [filter]. rewrite Hfail. exact Hcount.
    + exists (new ++ [call]). rewrite Hputs, Hcall, <- app_assoc.
      split; [reflexivity|].
      split; [rewrite length_app; cbn [length]; lia|].
      rewrite filter_app, length_app. cbn [filter]. rewrite Hok.
      destruct (Worker.BUCKET env call); cbn [length]; lia.
Qed.

Section Failures.

Lemma choosePath_returns (printDouble : Z -> jsString) (env : Worker.Bindings)
    (now : Date) (f : Worker.File) (custom : option Worker.formValue)
    (e : Entropy) :
  exists path e', Worker.choosePath printDouble env now f custom e = Normal (path, e').
Proof.
  assert (P : forall format, exists path e',
            parsePath printDouble now (Worker.name f) format e = Normal (path, e')).
  { intros format. unfold parsePath.
    apply (@replaceRandom_prefix [] _ e). constructor. }
  unfold Worker.choosePath.
  destruct custom as [[cp|g]|]; try apply P.
  destruct (negb (eqbS (trim cp) [])); [|apply P].
  eexists. eexists. reflexivity.
Qed.

End Failures.

(** X13.  The causes of an answer 500: the secret is not configured (unset or
    empty), or the request was admitted and its body could not be
    parsed, or the put was made and the bucket did not complete it.
    Resolving the path is never a cause: the answer is 500 exactly in
    these three cases. *)
Theorem server_error_causes (printDouble : Z -> jsString)
    (env : Worker.Bindings) (now stamp : Date) (req : Worker.Request)
    (w : Worker.World) :
  Worker.status (fst (Worker.upload printDouble env now stamp req w)) = 500%N
  <-> (Worker.AUTH_KEY env = None \/ Worker.AUTH_KEY env = Some [])
      \/ (admitted env req /\ exists x, Worker.parseBody req = Throw x)
      \/ (exists call,
            Worker.puts (snd (Worker.upload printDouble env now stamp req w))
            = call :: Worker.puts w
            /\ Worker.BUCKET env call = false).
Proof.
  split.
  - destruct (Worker.AUTH_KEY env) as [k|] eqn:Hk; [|intros _; left; now left].
    destruct k as [|c k]; [intros _; left; now right|].
    destruct (Worker.Authorization req) as [a|] eqn:Ha.
    2:{ unfold Worker.upload. rewrite Hk, Ha. cbn. discriminate. }
    destruct (eqbS a (c :: k)) eqn:E.
    2:{ unfold Worker.upload. rewrite Hk, Ha. cbn [truthy]. rewrite E.
        cbn. discriminate. }
    apply eqbS_true in E. subst a.
    assert (A : admitted env req) by (exists (c :: k); repeat split; assumption).
    rewrite upload_admitted by exact A.
    destruct (Worker.parseBody req) as [b|x] eqn:Hb.
    2:{ intros _. right. left. split; [exact A|]. now exists x. }
    unfold Worker.store.
    destruct (Worker.file b) as [[s|f]|]; try (cbn; discriminate).
    destruct (Worker.maxFileSize <? Worker.size f)%N; [cbn; discriminate|].
    destruct (choosePath_returns printDouble env now f (Worker.customPath b)
                (Worker.entropy w)) as (path & e' & ->).
    cbv zeta.
    destruct (Worker.BUCKET env _) eqn:Hbucket; [cbn; discriminate|].
    intros _. right. right. eexists. split; [reflexivity|exact Hbucket].
  - intros [[H|H] | [(A & x & Hx) | (call & Hputs & Hno)]].
    + unfold Worker.upload. now rewrite H.
    + unfold Worker.upload. now rewrite H.
    + rewrite upload_admitted by exact A. now rewrite Hx.
    + destruct (@upload_outcome printDouble env now stamp req w)
        as [(Hw & _ & _) | (_ & f & custom & path & e' & _ & _ & _ & E)].
      * rewrite Hw in Hputs. now apply cons_not_self in Hputs.
      * rewrite E in Hputs |- *. cbn [snd fst Worker.puts] in Hputs |- *.
        injection Hputs as <-. now rewrite Hno.
Qed.

Lemma server_error_causes_witness :
  Worker.status
    (fst (Worker.upload toString
            (Worker.mkBindings (fun _ => false) (Some Sample.secret) None None)
            Sample.christmas Sample.christmas
            (Sample.post Sample.secret Sample.photo None) Sample.fresh))
  = 500%N.
Proof.
  apply (proj2 (@server_error_causes toString
                  (Worker.mkBindings (fun _ => false) (Some Sample.secret) None None)
                  Sample.christmas Sample.christmas
                  (Sample.post Sample.secret Sample.photo None) Sample.fresh)).
  right. right. eexists. split; [vm_compute; reflexivity|reflexivity].
Defined.

Section Cors.

Lemma split_nonempty (c : codeUnit) (s : jsString) :
  exists first rest, split c s = first :: rest.
Proof.
  induction s as [|x s (first & rest & IH)]; cbn [split].
  - now exists [], [].
  - destruct (x =? c)%N; [eauto|]. rewrite IH. eauto.
Qed.

Lemma includes_In (a : list jsString) (x : jsString) :
  Pages.includes a x = true <-> In x a.
Proof.
  unfold Pages.includes. rewrite existsb_exists. split.
  - intros (y & Hin & E). apply eqbS_true in E. now subst y.
  - intros H. exists x. split; [exact H | apply eqbS_refl].
Qed.

Lemma split_entries (c : codeUnit) (s : jsString) :
  Forall (fun entry => ~ In c entry) (split c s).
Proof.
  induction s as [|x s IH]; cbn [split].
  - constructor; [intros []|constructor].
  - destruct (N.eqb_spec x c) as [->|Hx].
    + constructor; [intros []|exact IH].
    + destruct (split c s) as [|seg segs]; [repeat constructor; intros [H|[]]; congruence|].
      inversion IH as [|? ? Hseg Hsegs]; subst.
      constructor; [|exact Hsegs].
      intros [H|H]; [congruence|now apply Hseg].
Qed.

End Cors.

(** X14.  The origin callback of the CORS middleware never answers
    [undefined]: the configured list, cut at its commas (entries are not
    trimmed and none holds a comma), always has a first entry; a request
    origin that is one of the entries is answered with itself, and every
    other request origin with the first entry. *)
Theorem cors_origin_configured (CORS_ORIGINS : option jsString) (o : jsString) :
  exists first rest,
    split (ch ",") (orElse CORS_ORIGINS []) = first :: rest
    /\ Forall (fun entry => ~ In (ch ",") entry) (first :: rest)
    /\ (In o (first :: rest) -> Pages.origin CORS_ORIGINS o = Some o)
    /\ (~ In o (first :: rest) -> Pages.origin CORS_ORIGINS o = Some first).
Proof.
  destruct (split_nonempty (ch ",") (orElse CORS_ORIGINS [])) as (first & rest & E).
  exists first, rest. split; [exact E|].
  split; [rewrite <- E; apply split_entries|].
  unfold Pages.origin. cbv zeta. rewrite E. split.
  - intros H. apply includes_In in H. now rewrite H.
  - intros H. destruct (Pages.includes (first :: rest) o) eqn:I.
    + apply includes_In in I. contradiction.
    + reflexivity.
Qed.

Lemma cors_origin_configured_witness :
  Pages.origin (Some (str "https://a.example,https://b.example"))
    (str "https://b.example") = Some (str "https://b.example")
  /\ Pages.origin (Some (str "https://a.example,https://b.example"))
       (str "https://evil.example") = Some (str "https://a.example").
Proof.
  destruct (cors_origin_configured (Some (str "https://a.example,https://b.example"))
              (str "https://b.example")) as (f1 & r1 & E1 & _ & H1 & _).
  destruct (cors_origin_configured (Some (str "https://a.example,https://b.example"))
              (str "https://evil.example")) as (f2 & r2 & E2 & _ & _ & H2).
  split.
  - apply H1. rewrite <- E1. right. left. reflexivity.
  - vm_compute in E2. injection E2 as <- <-.
    apply H2. intros [H|[H|[]]]; discriminate H.
Defined.

Section HomePage.

Lemma replaceFirstFrom_absent (pat r before s : jsString) :
  occurs pat s = false -> Pages.replaceFirstFrom pat r before s = s.
Proof.
  revert before. induction s as [|c s IH]; intros before H.
  - cbn [occurs] in H. apply orb_false_iff in H as [H _].
    cbn [Pages.replaceFirstFrom]. now rewrite H.
  - cbn [occurs] in H. apply orb_false_iff in H as [H1 H2].
    cbn [Pages.replaceFirstFrom]. rewrite H1. f_equal. now apply IH.
Qed.

Lemma skipn_own_length (p t : jsString) : skipn (length p) (p ++ t) = t.
Proof. induction p as [|c p IH]; [reflexivity | exact IH]. Qed.

Lemma replaceFirstFrom_first (p : codeUnit) (pat r before a b : jsString) :
  (forall n, n < length a ->
             startsWith (p :: pat) (skipn n (a ++ (p :: pat) ++ b)) = false) ->
  Pages.replaceFirstFrom (p :: pat) r before (a ++ (p :: pat) ++ b)
  = a ++ getSubstitution (p :: pat) (before ++ a) b r ++ b.
Proof.
  revert before. induction a as [|c a IH]; intros before H.
  - rewrite app_nil_r. cbn [app].
    cbn [Pages.replaceFirstFrom].
    change (p :: pat ++ b) with ((p :: pat) ++ b).
    rewrite startsWith_app, skipn_own_length. reflexivity.
  - change ((c :: a) ++ (p :: pat) ++ b) with (c :: (a ++ (p :: pat) ++ b)).
    cbn [Pages.replaceFirstFrom].
    assert (H0 : startsWith (p :: pat) (c :: (a ++ (p :: pat) ++ b)) = false)
      by (apply (H 0); cbn [length]; lia).
    rewrite H0, IH.
    + now rewrite <- app_assoc.
    + intros n Hn. apply (H (S n)). cbn [length]. lia.
Qed.

End HomePage.

(** X15.  The home page: a page without the marker [{{APP_TITLE}}] is served
    as it is; otherwise the first marker, and only the first, gives way to
    the title, in which [$$], [$&], [$`] and [$'] are read as
    replacement patterns; a title without [$] is inserted as it is, with
    no escaping.  The title is [APP_TITLE], or [ByteGo] when that is
    unset or empty. *)
Theorem home_title_once (htmlContent : jsString) (APP_TITLE : option jsString) :
  (occurs (str "{{APP_TITLE}}") htmlContent = false ->
   Pages.home htmlContent APP_TITLE = htmlContent)
  /\ (forall a b,
        htmlContent = a ++ str "{{APP_TITLE}}" ++ b ->
        (forall n, n < length a ->
                   startsWith (str "{{APP_TITLE}}") (skipn n htmlContent) = false) ->
        Pages.home htmlContent APP_TITLE
        = a ++ getSubstitution (str "{{APP_TITLE}}") a b
                 (orElse APP_TITLE (str "ByteGo")) ++ b
        /\ (Forall (fun c => (c =? ch "$")%N = false) (orElse APP_TITLE (str "ByteGo")) ->
            Pages.home htmlContent APP_TITLE
            = a ++ orElse APP_TITLE (str "ByteGo") ++ b)).
Proof.
  unfold Pages.home, Pages.replaceFirst. cbv zeta. split.
  - apply replaceFirstFrom_absent.
  - intros a b -> H.
    assert (E : Pages.replaceFirstFrom (str "{{APP_TITLE}}")
                  (orElse APP_TITLE (str "ByteGo")) [] (a ++ str "{{APP_TITLE}}" ++ b)
                = a ++ getSubstitution (str "{{APP_TITLE}}") a b
                         (orElse APP_TITLE (str "ByteGo")) ++ b).
    { apply (@replaceFirstFrom_first (ch "{") (str "{APP_TITLE}}")
               (orElse APP_TITLE (str "ByteGo")) [] a b). exact H. }
    split; [exact E|].
    intros Hplain. rewrite E. now rewrite getSubstitution_plain.
Qed.

Lemma home_title_once_witness :
  Pages.home (str "<title>{{APP_TITLE}}</title><h1>{{APP_TITLE}}</h1>") None
  = str "<title>ByteGo</title><h1>{{APP_TITLE}}</h1>".
Proof.
  refine (proj2 (proj2 (home_title_once
                   (str "<title>{{APP_TITLE}}</title><h1>{{APP_TITLE}}</h1>") None)
            (str "<title>") (str "</title><h1>{{APP_TITLE}}</h1>") eq_refl _) _).
  - intros n Hn. cbn [length str] in Hn.
    do 7 (destruct n as [|n]; [reflexivity|]).
    vm_compute in Hn. lia.
  - vm_compute. repeat constructor.
Defined.

(** X16.  Renaming, for an extension of at most 31 characters and a digest of
    at least 8: the name is the first [31 - len(ext)] characters of the
    stem, a hyphen, the first 8 characters of the digest and the
    extension; its length is the shorter of the stem and that bound, plus
    9, plus the extension; and a stem that fits is kept whole. *)
Theorem renamed_form (md5 : list N -> jsString) (f : Rename.file) :
  length (Rename.ext f) <= 31 ->
  8 <= length (md5 (Rename.content f)) ->
  Rename.renamed md5 f
  = firstn (31 - length (Rename.ext f)) (Rename.stem f)
      ++ str "-" ++ firstn 8 (md5 (Rename.content f)) ++ Rename.ext f
  /\ length (Rename.renamed md5 f)
     = Nat.min (length (Rename.stem f)) (31 - length (Rename.ext f))
       + 9 + length (Rename.ext f)
  /\ (length (Rename.stem f) + 9 + length (Rename.ext f) <= 40 ->
      Rename.renamed md5 f
      = Rename.stem f ++ str "-" ++ firstn 8 (md5 (Rename.content f))
          ++ Rename.ext f).
Proof.
  intros He Hd.
  destruct (renamed_within_limit md5 f He) as [Hs _].
  assert (E : Rename.renamed md5 f
              = firstn (31 - length (Rename.ext f)) (Rename.stem f)
                  ++ str "-" ++ firstn 8 (md5 (Rename.content f)) ++ Rename.ext f).
  { unfold Rename.renamed. rewrite Hs. reflexivity. }
  split; [exact E|]. split.
  - rewrite E. rewrite !length_app, !length_firstn. cbn [length str].
    change (length (str "-")) with 1. lia.
  - intros Hfit. rewrite E. rewrite firstn_all2 by lia. reflexivity.
Qed.

Lemma renamed_form_witness :
  Rename.renamed Sample.digest Sample.longName
  = str "a-very-long-original-file-n-d41d8cd9.pdf"
  /\ length (Rename.renamed Sample.digest Sample.longName) = 40.
Proof.
  destruct (@renamed_form Sample.digest Sample.longName) as (E & L & _).
  - vm_compute. lia.
  - vm_compute. lia.
  - split; [rewrite E; reflexivity | rewrite L; reflexivity].
Defined.

(** X17.  Two files with the same extension whose digests differ in their
    first 8 characters are given different names, whatever their stems:
    neither overwrites the other under the same date. *)
Theorem different_digest_different_name (md5 : list N -> jsString)
    (date : jsString) (f g : Rename.file) :
  Rename.ext f = Rename.ext g ->
  8 <= length (md5 (Rename.content f)) ->
  8 <= length (md5 (Rename.content g)) ->
  Rename.hash md5 f <> Rename.hash md5 g ->
  Rename.rename md5 date f <> Rename.rename md5 date g.
Proof.
  intros He Hf Hg Hne E. apply Hne.
  unfold Rename.rename in E. apply app_inv_head in E. apply app_inv_head in E.
  unfold Rename.renamed in E. rewrite He in E.
  rewrite !app_assoc in E. apply app_inv_tail in E.
  assert (L : forall h, 8 <= length (md5 (Rename.content h)) ->
                        length (Rename.hash md5 h) = 8).
  { intros h Hh. unfold Rename.hash. rewrite sliceTo_length by lia.
    change (Z.to_nat 8) with 8. lia. }
  apply (f_equal (@rev codeUnit)) in E.
  rewrite !rev_app_distr in E.
  apply app_same_length in E; [|rewrite !length_rev, (L f Hf), (L g Hg); reflexivity].
  destruct E as [E _].
  apply (f_equal (@rev codeUnit)) in E. now rewrite !rev_involutive in E.
Qed.

Lemma different_digest_different_name_witness :
  Rename.rename Sample.digest (str "2024/12/25")
    (Rename.mkFile [] (str "notes") (str ".txt"))
  <> Rename.rename Sample.digest (str "2024/12/25")
       (Rename.mkFile [0%N] (str "notes") (str ".txt")).
Proof.
  apply different_digest_different_name.
  - reflexivity.
  - vm_compute. lia.
  - vm_compute. lia.
  - vm_compute. discriminate.
Defined.

Section FileNames.

Lemma last_occurrence (c : codeUnit) (s : jsString) :
  In c s -> exists pre post, s = pre ++ c :: post /\ ~ In c post.
Proof.
  induction s as [|x s IH]; [intros []|].
  intros H. destruct (in_dec N.eq_dec c s) as [Hin|Hout].
  - destruct (IH Hin) as (pre & post & -> & Hpost).
    exists (x :: pre), post. now split.
  - destruct H as [->|H]; [|contradiction].
    exists [], s. now split.
Qed.

Lemma lastIndexOf_present (c : codeUnit) (s : jsString) :
  In c s -> (lastIndexOf c s =? -1)%Z = false.
Proof.
  intros H. destruct (last_occurrence c s H) as (pre & post & -> & Hpost).
  rewrite lastIndexOf_last by exact Hpost. apply Z.eqb_neq. lia.
Qed.

Lemma lastIndexOf_absent (c : codeUnit) (s : jsString) :
  ~ In c s -> lastIndexOf c s = (-1)%Z.
Proof. intros H. unfold lastIndexOf. now apply lastIndexOfFrom_absent. Qed.

Lemma substring2_prefix (pre post : jsString) :
  substring2 (pre ++ post) 0 (Z.of_nat (length pre)) = pre.
Proof.
  unfold substring2, clampIndex. rewrite length_app.
  replace (Z.to_nat (Z.max 0 (Z.min 0 (Z.of_nat (length pre + length post)))))
    with 0 by lia.
  replace (Z.to_nat (Z.max 0 (Z.min (Z.of_nat (length pre))
             (Z.of_nat (length pre + length post))))) with (length pre) by lia.
  rewrite Nat.max_r, Nat.min_l, Nat.sub_0_r by lia.
  cbn [skipn]. rewrite firstn_app, firstn_all, Nat.sub_diag.
  cbn [firstn]. apply app_nil_r.
Qed.

Lemma substring2_nothing (s : jsString) : substring2 s 0 (-1) = [].
Proof.
  unfold substring2, clampIndex.
  replace (Z.to_nat (Z.max 0 (Z.min 0 (Z.of_nat (length s))))) with 0 by lia.
  replace (Z.to_nat (Z.max 0 (Z.min (-1) (Z.of_nat (length s))))) with 0 by lia.
  reflexivity.
Qed.

Lemma replaceUnsafe_dot (s : jsString) :
  In (ch ".") (replaceUnsafe s) -> In (ch ".") s.
Proof.
  unfold replaceUnsafe. intros H. apply in_map_iff in H as (c & E & Hin).
  destruct (isSafeChar c); [now subst c|].
  vm_compute in E. discriminate.
Qed.

Lemma replaceUnsafe_fixed (s : jsString) :
  Forall (fun c => isSafeChar c = true) s -> replaceUnsafe s = s.
Proof.
  unfold replaceUnsafe.
  induction 1 as [|c s Hc _ IH]; [reflexivity|].
  cbn [map]. now rewrite Hc, IH.
Qed.

Lemma no_separator (s : jsString) :
  Forall (fun c => isSeparator c = false) s -> existsb isSeparator s = false.
Proof.
  induction 1 as [|c s Hc _ IH]; [reflexivity|].
  cbn [existsb]. now rewrite Hc, IH.
Qed.

Lemma safeFilename_plain (s : jsString) :
  Forall (fun c => isSeparator c = false) s -> safeFilename s = replaceUnsafe s.
Proof.
  intros H. unfold safeFilename. rewrite lastSegment_final.
  unfold finalSegment. rewrite afterLast_none by now apply no_separator.
  destruct s; reflexivity.
Qed.

Lemma afterLast_suffix (f : codeUnit -> bool) (s : jsString) :
  exists pre, s = pre ++ afterLast f s.
Proof.
  induction s as [|c s (pre & IH)]; [now exists []|].
  cbn [afterLast].
  destruct (existsb f s).
  - exists (c :: pre). cbn [app]. now f_equal.
  - destruct (f c); [now exists [c] | now exists []].
Qed.

Lemma afterLast_last (f : codeUnit -> bool) (pre post : jsString) (c : codeUnit) :
  f c = true -> existsb f post = false ->
  afterLast f (pre ++ c :: post) = post.
Proof.
  intros Hc Hpost. induction pre as [|x pre IH].
  - cbn [app afterLast]. now rewrite Hpost, Hc.
  - cbn [app afterLast]. rewrite existsb_app. cbn [existsb].
    rewrite Hc, orb_true_r. exact IH.
Qed.

End FileNames.

(** X18.  For a file name without a path separator the two name variables fit
    together: the name without extension followed by the sanitized
    extension is the sanitized name, so that
    [{originname_without_ext}{ext}] resolves to [{originname}] whenever
    the extension holds safe characters only.  A name without a dot has
    an empty extension and is its own name without extension. *)
Theorem name_splits_at_extension (filename : jsString) :
  Forall (fun c => isSeparator c = false) filename ->
  originNameWithoutExt filename ++ replaceUnsafe (ext filename)
  = originName filename
  /\ (~ In (ch ".") filename ->
      ext filename = [] /\ originNameWithoutExt filename = originName filename).
Proof.
  intros Hsep.
  assert (S : safeFilename filename = replaceUnsafe filename)
    by now apply safeFilename_plain.
  assert (N : ~ In (ch ".") filename ->
              ext filename = []
              /\ originNameWithoutExt filename = originName filename).
  { intros Hno. unfold ext, originNameWithoutExt, originName, extIndex.
    rewrite lastIndexOf_absent by exact Hno. now split. }
  split; [|exact N].
  destruct (in_dec N.eq_dec (ch ".") filename) as [Hin|Hout].
  - destruct (last_occurrence _ _ Hin) as (pre & post & E & Hpost).
    unfold originNameWithoutExt, originName.
    rewrite S. subst filename.
    rewrite ext_from_last_dot by exact Hpost.
    unfold extIndex. rewrite lastIndexOf_last by exact Hpost.
    destruct (Z.eqb_spec (Z.of_nat (length pre)) (-1)) as [Hneg|_]; [lia|].
    unfold replaceUnsafe at 1 2. rewrite map_app. cbn [map].
    change (if isSafeChar (ch ".") then ch "." else ch "_") with (ch ".").
    fold (replaceUnsafe pre). fold (replaceUnsafe post).
    rewrite lastIndexOf_last
      by (intros H; apply Hpost; now apply replaceUnsafe_dot).
    rewrite substring2_prefix.
    unfold replaceUnsafe. rewrite map_app. reflexivity.
  - destruct (N Hout) as [-> ->]. apply app_nil_r.
Qed.

Lemma name_splits_at_extension_witness :
  originNameWithoutExt (str "my photo.final.png")
    ++ replaceUnsafe (ext (str "my photo.final.png"))
  = originName (str "my photo.final.png")
  /\ originNameWithoutExt (str "my photo.final.png") = str "my_photo.final".
Proof.
  split; [|reflexivity].
  apply (@name_splits_at_extension (str "my photo.final.png")).
  vm_compute. repeat constructor.
Defined.

(** X19.  A dot in a directory component only: the index of the extension is
    taken on the received name and applied to the sanitized final
    segment, which has no dot, so the name without extension is empty
    while the sanitized name is the final segment. *)
Theorem directory_dot_empties_stem (dir base : jsString) (sep : codeUnit) :
  isSeparator sep = true ->
  In (ch ".") dir ->
  ~ In (ch ".") base ->
  Forall (fun c => isSeparator c = false) base ->
  base <> [] ->
  originName (dir ++ sep :: base) = replaceUnsafe base
  /\ originNameWithoutExt (dir ++ sep :: base) = []
  /\ originName (dir ++ sep :: base) <> [].
Proof.
  intros Hsep Hdot Hbase Hplain Hne.
  assert (S : safeFilename (dir ++ sep :: base) = replaceUnsafe base).
  { unfold safeFilename. rewrite lastSegment_final. unfold finalSegment.
    rewrite afterLast_last by (try exact Hsep; now apply no_separator).
    destruct base; [contradiction|reflexivity]. }
  unfold originName, originNameWithoutExt, extIndex. rewrite S.
  split; [reflexivity|]. split.
  - rewrite lastIndexOf_present by (apply in_or_app; now left).
    rewrite lastIndexOf_absent
      by (intros H; apply Hbase; now apply replaceUnsafe_dot).
    apply substring2_nothing.
  - destruct base; [contradiction|discriminate].
Qed.

Lemma directory_dot_empties_stem_witness :
  originName (str "dir.v2/file") = str "file"
  /\ originNameWithoutExt (str "dir.v2/file") = [].
Proof.
  destruct (@directory_dot_empties_stem (str "dir.v2") (str "file") (ch "/"))
    as (H1 & H2 & _).
  - reflexivity.
  - vm_compute. tauto.
  - vm_compute. intros H. repeat (destruct H as [H|H]; [discriminate H|]). exact H.
  - vm_compute. repeat constructor.
  - discriminate.
  - split; [exact H1 | exact H2].
Defined.

(** X20.  The sanitized name is never longer than the received one, is empty
    only for the empty name, and is left as it is when it is sanitized
    again. *)
Theorem originName_stable (filename : jsString) :
  length (originName filename) <= length filename
  /\ (originName filename = [] <-> filename = [])
  /\ originName (originName filename) = originName filename.
Proof.
  unfold originName.
  assert (L : exists s, safeFilename filename = replaceUnsafe s
                        /\ length s <= length filename
                        /\ (s = [] -> filename = [])).
  { unfold safeFilename. rewrite lastSegment_final.
    destruct (afterLast_suffix isSeparator filename) as (pre & E).
    unfold finalSegment.
    destruct (afterLast isSeparator filename) as [|c seg] eqn:F.
    - exists filename. cbn [orElse truthy]. auto.
    - exists (c :: seg). cbn [orElse truthy]. split; [reflexivity|].
      split; [|discriminate].
      rewrite E, length_app. lia. }
  destruct L as (s & E & Hlen & Hnil).
  split; [|split].
  - rewrite E. unfold replaceUnsafe. rewrite length_map. exact Hlen.
  - split.
    + intros H. apply Hnil. rewrite E in H. unfold replaceUnsafe in H.
      now apply map_eq_nil in H.
    + intros ->. reflexivity.
  - rewrite safeFilename_plain.
    + apply replaceUnsafe_fixed. rewrite E. apply replaceUnsafe_safe.
    + rewrite E. eapply Forall_impl; [|apply replaceUnsafe_safe].
      intros c. apply safe_not_separator.
Qed.

Section Widths.

Lemma two_digits (z : Z) :
  (0 <= z <= 99)%Z ->
  printsDigits 2 (padStart 2 (str "0") (toString z)) = true.
Proof.
  intros H.
  assert (T : forallb (fun n => printsDigits 2
                         (padStart 2 (str "0") (toString (Z.of_nat n))))
                (seq 0 100) = true) by (vm_compute; reflexivity).
  rewrite forallb_forall in T.
  rewrite <- (Z2Nat.id z) by lia. apply T. apply in_seq. lia.
Qed.

Lemma four_digits (z : Z) :
  (1000 <= z <= 9999)%Z -> printsDigits 4 (toString z) = true.
Proof.
  intros H.
  assert (T : forallb (fun q => forallb (fun r =>
                 printsDigits 4 (toString (100 * Z.of_nat q + Z.of_nat r)))
                   (seq 0 100)) (seq 10 90) = true) by (vm_compute; reflexivity).
  rewrite forallb_forall in T.
  specialize (T (Z.to_nat (z / 100))).
  rewrite forallb_forall in T.
  specialize (fun Hq => T Hq (Z.to_nat (z mod 100))).
  assert (Hq : (10 <= z / 100 <= 99)%Z).
  { split; [apply Z.div_le_lower_bound; lia|].
    apply Z.lt_succ_r. apply Z.div_lt_upper_bound; lia. }
  assert (Hr : (0 <= z mod 100 < 100)%Z) by (apply Z.mod_pos_bound; lia).
  rewrite !Z2Nat.id in T by lia.
  rewrite <- (Z.div_mod z 100) in T by lia.
  apply T; apply in_seq; lia.
Qed.

Lemma printsDigits_app (n m : nat) (a b : jsString) :
  printsDigits n a = true -> printsDigits m b = true ->
  printsDigits (n + m) (a ++ b) = true.
Proof.
  unfold printsDigits. intros Ha Hb.
  apply andb_true_iff in Ha as [La Da]. apply andb_true_iff in Hb as [Lb Db].
  apply Nat.eqb_eq in La, Lb.
  rewrite length_app, forallb_app, Da, Db, La, Lb.
  now rewrite Nat.eqb_refl.
Qed.

End Widths.

(** X21.  The time variables have a fixed width for a clock reading in the
    years 1000 to 9999: the year is 4 digits, month, day, hours, minutes
    and seconds are 2 digits each (a leading zero where needed),
    [{date}] is 8 digits and [{time}] 14, digits only. *)
Theorem time_variables_fixed_width (now : Date) :
  fourDigitYear now ->
  printsDigits 4 (year now) = true
  /\ printsDigits 2 (month now) = true
  /\ printsDigits 2 (day now) = true
  /\ printsDigits 2 (hours now) = true
  /\ printsDigits 2 (minutes now) = true
  /\ printsDigits 2 (seconds now) = true
  /\ printsDigits 8 (dateStr now) = true
  /\ printsDigits 14 (timeStr now) = true.
Proof.
  intros (Hy & Hm & Hd & Hh & Hmin & Hs).
  assert (Y : printsDigits 4 (year now) = true) by (apply four_digits; exact Hy).
  assert (M : printsDigits 2 (month now) = true) by (apply two_digits; lia).
  assert (D : printsDigits 2 (day now) = true) by (apply two_digits; lia).
  assert (H : printsDigits 2 (hours now) = true) by (apply two_digits; lia).
  assert (I : printsDigits 2 (minutes now) = true) by (apply two_digits; lia).
  assert (S : printsDigits 2 (seconds now) = true) by (apply two_digits; lia).
  split; [exact Y|]. split; [exact M|]. split; [exact D|].
  split; [exact H|]. split; [exact I|]. split; [exact S|].
  split.
  - unfold dateStr.
    apply (@printsDigits_app 4 4); [exact Y|].
    apply (@printsDigits_app 2 2); assumption.
  - unfold timeStr.
    apply (@printsDigits_app 4 10); [exact Y|].
    apply (@printsDigits_app 2 8); [exact M|].
    apply (@printsDigits_app 2 6); [exact D|].
    apply (@printsDigits_app 2 4); [exact H|].
    apply (@printsDigits_app 2 2); assumption.
Qed.

Lemma time_variables_fixed_width_witness :
  fourDigitYear Sample.christmas
  /\ printsDigits 8 (dateStr Sample.christmas) = true
  /\ printsDigits 14 (timeStr Sample.christmas) = true.
Proof.
  assert (F : fourDigitYear Sample.christmas) by (vm_compute; intuition discriminate).
  split; [exact F|].
  split; apply (time_variables_fixed_width F).
Defined.

Section NamedTemplates.

Variable printDouble : Z -> jsString.
Variable now : Date.
Variable filename : jsString.

Lemma namedValue_inert (a v : jsString) :
  (a = str "timestamp_nano" -> inert (timestampNano printDouble now)) ->
  (a = str "ext" -> inert (ext filename)) ->
  namedValue printDouble now filename a = Some v -> inert v.
Proof.
  intros Hn He.
  destruct (clock_inert now) as (Iy & Im & Id & Idate & Itime & Its).
  unfold namedValue.
  repeat match goal with
         | |- (if eqbS a ?b then _ else _) = _ -> _ =>
             let E := fresh "E" in
             destruct (eqbS a b) eqn:E;
             [apply eqbS_true in E; intros [= <-]|]
         end; try assumption; try discriminate.
  - now apply Hn.
  - apply safe_inert, replaceUnsafe_safe.
  - apply safe_inert, originNameWithoutExt_safe.
  - now apply He.
Qed.

Lemma instantiate_notOpening (ts : list token) :
  wellFormed ts ->
  (forall a, In (Var a) ts -> namedValue printDouble now filename a <> None) ->
  (In (Var (str "timestamp_nano")) ts -> inert (timestampNano printDouble now)) ->
  (In (Var (str "ext")) ts -> inert (ext filename)) ->
  Forall notOpening (instantiate printDouble now filename ts).
Proof.
  intros W. induction W as [|t ts Ht _ IH]; intros Hall Hn He; [constructor|].
  change (instantiate printDouble now filename (t :: ts))
    with (instantiateToken printDouble now filename t
            ++ instantiate printDouble now filename ts).
  apply Forall_app. split.
  - destruct t as [c|a]; [repeat constructor; exact Ht|].
    cbn [instantiateToken].
    destruct (namedValue printDouble now filename a) as [v|] eqn:E.
    + apply inert_notOpening. eapply namedValue_inert; [| |exact E].
      * intros ->. apply Hn. now left.
      * intros ->. apply He. now left.
    + exfalso. apply (Hall a); [now left|exact E].
  - apply IH.
    + intros a Ha. apply Hall. now right.
    + intros H. apply Hn. now right.
    + intros H. apply He. now right.
Qed.

End NamedTemplates.

(** X22.  A template made of text without opening brace and of clock and file
    name variables only resolves to the text with each variable replaced
    by its value; the result does not depend on the random source, from
    which nothing is drawn. *)
Theorem named_template_resolves (printDouble : Z -> jsString) (now : Date)
    (filename : jsString) (ts : list token) (e : Entropy) :
  wellFormed ts ->
  (forall a, In (Var a) ts -> namedValue printDouble now filename a <> None) ->
  (In (Var (str "timestamp_nano")) ts -> inert (timestampNano printDouble now)) ->
  (In (Var (str "ext")) ts -> inert (ext filename)) ->
  parsePath printDouble now filename (render ts) e
  = Normal (instantiate printDouble now filename ts, e).
Proof.
  intros W Hall Hn He. unfold parsePath.
  rewrite replaceNamed_render by assumption.
  apply replaceRandom_absent.
  pose proof (@instantiate_notOpening printDouble now filename ts W Hall Hn He) as H.
  unfold free, randomPlaceholders. cbn [forallb].
  change (str "{randomkey8}") with (placeholder (str "randomkey8")).
  change (str "{randomkey16}") with (placeholder (str "randomkey16")).
  change (str "{uuid}") with (placeholder (str "uuid")).
  now rewrite !occurs_in_run by exact H.
Qed.

Lemma named_template_resolves_witness :
  parsePath toString Sample.christmas (str "my photo.png")
    (str "img/{date}/{originname}") Sample.counting
  = Normal (str "img/20241225/my_photo.png", Sample.counting).
Proof.
  refine (@named_template_resolves toString Sample.christmas (str "my photo.png")
            (map Text (str "img/") ++ [Var (str "date"); Text (ch "/");
                                       Var (str "originname")])
            Sample.counting _ _ _ _).
  - vm_compute. repeat constructor.
  - intros a H. cbn [map app str In] in H.
    repeat (destruct H as [H|H]; [try discriminate H|]); try contradiction.
    + injection H as <-. discriminate.
    + injection H as <-. discriminate.
  - intros H. exfalso. cbn [map app In] in H.
    repeat (destruct H as [H|H]; [discriminate H|]). exact H.
  - intros H. exfalso. cbn [map app In] in H.
    repeat (destruct H as [H|H]; [discriminate H|]). exact H.
Defined.
